(** * stock-news-brief: the Gemini response interpreter of [app.py]

    A shallow embedding of [summarize_with_gemini] (app.py, lines 234-353):
    the line scan that extracts the translated title, the three-bullet
    summary and the key quotations from the free-text answer, and the
    three-tier sentiment resolution.

    Python [str] values are sequences of Unicode code points; they are
    modelled as lists of code points, so that [strip], [split], [in],
    [startswith] and [rfind] act on the same units as in the source. *)

From Stdlib Require Import List NArith ZArith Bool Lia.
From Stdlib Require Strings.String Strings.Ascii Strings.Byte.
From Stdlib Require DecimalNat Floats.PrimFloat.
Import String.StringSyntax.
From ExtLib Require Import Structures.Monad Structures.MonadExc Data.Monads.EitherMonad.
Import ListNotations.

(** ** Text: Python [str] as a list of code points *)

Module Text.

Definition char := N.
Definition str := list char.

Definition char_eqb (a b : char) : bool := N.eqb a b.

Fixpoint str_eqb (a b : str) : bool :=
  match a, b with
  | [], [] => true
  | x :: a', y :: b' => char_eqb x y && str_eqb a' b'
  | _, _ => false
  end.

(** *** Literals

    The literals of the source are written as they stand in [app.py] and
    decoded from their UTF-8 bytes into code points. *)

Fixpoint utf8_go (pending : nat) (acc : N) (bs : list N) : str :=
  match bs with
  | [] => []
  | b :: bs' =>
      if (b <? 128)%N then b :: utf8_go 0 0%N bs'
      else if (b <? 192)%N then
        let acc' := (acc * 64 + (b - 128))%N in
        match pending with
        | 0 | 1 => acc' :: utf8_go 0 0%N bs'
        | S k => utf8_go k acc' bs'
        end
      else if (b <? 224)%N then utf8_go 1 (b - 192)%N bs'
      else if (b <? 240)%N then utf8_go 2 (b - 224)%N bs'
      else utf8_go 3 (b - 240)%N bs'
  end.

Definition lit (s : String.string) : str :=
  utf8_go 0 0%N (map Byte.to_N (String.list_byte_of_string s)).

(** *** [str.startswith], [in], [str.rfind] *)

(** [s.startswith(p)] *)
Fixpoint startswith (s p : str) {struct p} : bool :=
  match p with
  | [] => true
  | x :: p' =>
      match s with
      | [] => false
      | y :: s' => char_eqb x y && startswith s' p'
      end
  end.

(** [sub in s] *)
Fixpoint str_in (sub s : str) : bool :=
  startswith s sub ||
  match s with
  | [] => false
  | _ :: s' => str_in sub s'
  end.

(** [s.rfind(sub)]: the highest index at which [sub] occurs in [s], or
    [-1] when it does not occur. *)
Fixpoint rfind (s sub : str) : Z :=
  match s with
  | [] => if startswith [] sub then 0%Z else (-1)%Z
  | _ :: s' =>
      let r := rfind s' sub in
      if (0 <=? r)%Z then (r + 1)%Z
      else if startswith s sub then 0%Z else (-1)%Z
  end.

(** *** [str.strip]

    With no argument, [strip] removes the code points for which
    [str.isspace] holds from both ends. *)

Definition isspace (c : char) : bool :=
  ((9 <=? c) && (c <=? 13) || (28 <=? c) && (c <=? 32) ||
   (c =? 133) || (c =? 160) || (c =? 5760) ||
   (8192 <=? c) && (c <=? 8202) ||
   (c =? 8232) || (c =? 8233) || (c =? 8239) || (c =? 8287) ||
   (c =? 12288))%N.

Fixpoint lstrip (s : str) : str :=
  match s with
  | [] => []
  | c :: s' => if isspace c then lstrip s' else s
  end.

Definition rstrip (s : str) : str := rev (lstrip (rev s)).

Definition strip (s : str) : str := rstrip (lstrip s).

(** *** [str.split] with a separator, [str.join]

    [split s sep] cuts [s] at the occurrences of [sep] found scanning from
    the left, an occurrence starting only after the previous one ended.
    [skip] counts the code points of a matched separator still to pass,
    [cur] holds the current piece, reversed. The source only calls
    [split] with non-empty literal separators. *)

Fixpoint split_go (sep : str) (skip : nat) (cur : str) (s : str) : list str :=
  match s with
  | [] => [rev cur]
  | c :: s' =>
      match skip with
      | S k => split_go sep k cur s'
      | O =>
          if startswith s sep
          then rev cur :: split_go sep (length sep - 1) [] s'
          else split_go sep 0 (c :: cur) s'
      end
  end.

Definition split (s sep : str) : list str := split_go sep 0 [] s.

(** [sep.join(l)] *)
Fixpoint join (sep : str) (l : list str) : str :=
  match l with
  | [] => []
  | [x] => x
  | x :: l' => x ++ sep ++ join sep l'
  end.

(** [l[-1]] of a list that [split] returned (never empty) *)
Definition last_piece (l : list str) : str := last l [].

End Text.

Import Text.

(** ** The literals of [summarize_with_gemini] *)

Module Literals.
Import Stdlib.Strings.String.

Definition title_marker : str := Eval vm_compute in lit "한국어 제목:"%string.
Definition summary_marker : str := Eval vm_compute in lit "3줄 요약:"%string.
Definition quotes_marker : str := Eval vm_compute in lit "핵심 문장:"%string.
Definition sentiment_marker : str := Eval vm_compute in lit "감성 분석"%string.
Definition sentiment_marker_nospace : str := Eval vm_compute in lit "감성분석"%string.
Definition sentiment_word : str := Eval vm_compute in lit "감성"%string.
Definition sentiment_word_en : str := Eval vm_compute in lit "sentiment"%string.
Definition tok_positive : str := Eval vm_compute in lit "호재"%string.
Definition tok_negative : str := Eval vm_compute in lit "악재"%string.
Definition tok_neutral : str := Eval vm_compute in lit "중립"%string.
Definition bullet_dot : str := Eval vm_compute in lit "•"%string.
Definition bullet_dash : str := Eval vm_compute in lit "-"%string.
Definition quote_gt : str := Eval vm_compute in lit ">"%string.
Definition quote_dq : str := [34%N].
Definition colon : str := Eval vm_compute in lit ":"%string.
Definition newline : str := [10%N].
Definition failure_prefix : str := Eval vm_compute in lit "⚠️ 요약 생성 실패: "%string.

End Literals.

Import Literals.


(** ** The interpreter: [summarize_with_gemini], lines 276-353 *)

Module Interpreter.

Import MonadNotation.
Local Open Scope monad_scope.

(** The local variables that the scan over the lines assigns
    (lines 279-282). *)
Record locals := Locals {
  l_korean_title : str;
  l_summary : str;
  l_key_quotes : str;
  l_sentiment : str
}.

(** The returned dict. The dict of the [except] branch has no
    ['key_quotes'] entry. *)
Record result := Result {
  korean_title : str;
  summary : str;
  key_quotes : option str;
  sentiment : str;
  raw_response : str
}.

(** [range(a, b)] *)
Definition range (a b : nat) : list nat := seq a (b - a).

(** [enumerate(lines)] *)
Definition enumerate (lines : list str) : list (nat * str) :=
  combine (seq 0 (length lines)) lines.

(** [[lines[j] for j in range(i+1, min(i+4, len(lines)))]]: the lines that
    the two inner loops visit. *)
Definition window (lines : list str) (i : nat) : list str :=
  map (fun j => nth j lines []) (range (i + 1) (Nat.min (i + 4) (length lines))).

(** Lines 290-292: the inner loop of the summary branch. *)
Fixpoint summary_loop (w : list str) (summary_lines : list str) : list str :=
  match w with
  | [] => summary_lines
  | lj :: w' =>
      if startswith (strip lj) bullet_dot || startswith (strip lj) bullet_dash
      then summary_loop w' (summary_lines ++ [strip lj])
      else summary_loop w' summary_lines
  end.

(** Lines 297-302: the inner loop of the quotations branch, with its
    [break]. The source tests the double quote twice. *)
Fixpoint quote_loop (w : list str) (quote_lines : list str) : list str :=
  match w with
  | [] => quote_lines
  | lj :: w' =>
      let stripped := strip lj in
      if startswith stripped quote_gt || startswith stripped quote_dq
         || startswith stripped quote_dq
      then quote_loop w' (quote_lines ++ [stripped])
      else if str_in sentiment_marker stripped then quote_lines
      else quote_loop w' quote_lines
  end.

(** Line 305 *)
Definition sentiment_text (line : str) : str :=
  if str_in colon line then strip (last_piece (split line colon)) else line.

(** Lines 306-311 *)
Definition classify (text : str) : str :=
  if str_in tok_positive text then tok_positive
  else if str_in tok_negative text then tok_negative
  else tok_neutral.

(** Lines 285-311: the body of the scan, at line [i]. *)
Definition loop_body (response_text : str) (lines : list str)
    (st : locals) (il : nat * str) : locals :=
  let (i, line) := il in
  if str_in title_marker line then
    Locals (strip (last_piece (split line title_marker)))
           (l_summary st) (l_key_quotes st) (l_sentiment st)
  else if str_in summary_marker line then
    let summary_lines := summary_loop (window lines i) [] in
    Locals (l_korean_title st)
           (match summary_lines with
            | [] => response_text
            | _ => join newline summary_lines
            end)
           (l_key_quotes st) (l_sentiment st)
  else if str_in quotes_marker line then
    let quote_lines := quote_loop (window lines i) [] in
    Locals (l_korean_title st) (l_summary st)
           (match quote_lines with
            | [] => []
            | _ => join newline quote_lines
            end)
           (l_sentiment st)
  else if str_in sentiment_marker line || str_in sentiment_marker_nospace line then
    Locals (l_korean_title st) (l_summary st) (l_key_quotes st)
           (classify (sentiment_text line))
  else st.

(** Lines 284-311 *)
Definition scan (response_text news_title : str) (lines : list str) : locals :=
  fold_left (loop_body response_text lines) (enumerate lines)
            (Locals news_title [] [] tok_neutral).

(** *** Which branch of the scan takes a line

    The [if]/[elif] chain of lines 285-304 gives a line to the first branch
    whose marker it carries. *)

Definition title_line (line : str) : bool := str_in title_marker line.

Definition summary_line (line : str) : bool :=
  negb (title_line line) && str_in summary_marker line.

Definition quotes_line (line : str) : bool :=
  negb (title_line line) && negb (str_in summary_marker line)
  && str_in quotes_marker line.

Definition sentiment_line (line : str) : bool :=
  negb (title_line line) && negb (str_in summary_marker line)
  && negb (str_in quotes_marker line)
  && (str_in sentiment_marker line || str_in sentiment_marker_nospace line).

(** A stripped line begins with a bullet marker (line 291), with a quote
    marker (line 299). *)
Definition is_bullet (stripped : str) : bool :=
  startswith stripped bullet_dot || startswith stripped bullet_dash.

Definition is_quote (stripped : str) : bool :=
  startswith stripped quote_gt || startswith stripped quote_dq.

(** The lines split from the stripped response (line 277). *)
Definition lines_of (response_text : str) : list str :=
  split (strip response_text) newline.

Section WithLower.

(** [str.lower]. The Unicode case tables are those of the Python runtime;
    the development holds for any lowering function. *)
Variable lower : str -> str.

(** Lines 320-328: the second tier, taking the first matching line. *)
Fixpoint rescan (lines : list str) (sentiment0 : str) : str :=
  match lines with
  | [] => sentiment0
  | line :: rest =>
      let line_lower := lower line in
      if str_in sentiment_word line || str_in sentiment_word_en line_lower then
        if str_in tok_positive line then tok_positive
        else if str_in tok_negative line then tok_negative
        else rescan rest sentiment0
      else rescan rest sentiment0
  end.

(** Lines 331-337: the third tier. *)
Definition last_mention (response_text : str) (sentiment0 : str) : str :=
  let last_positive := rfind response_text tok_positive in
  let last_negative := rfind response_text tok_negative in
  if (last_positive >? last_negative)%Z && negb (last_positive =? -1)%Z
  then tok_positive
  else if (last_negative >? last_positive)%Z && negb (last_negative =? -1)%Z
  then tok_negative
  else sentiment0.

(** Lines 318-337 *)
Definition resolve (response_text : str) (lines : list str) (sentiment0 : str) : str :=
  if str_eqb sentiment0 tok_neutral then
    let sentiment1 := rescan lines sentiment0 in
    if str_eqb sentiment1 tok_neutral then last_mention response_text sentiment1
    else sentiment1
  else sentiment0.

(** Lines 277-345: what the [try] block does with the text that the
    generation call returned. *)
Definition interpret (response_text news_title : str) : result :=
  let lines := lines_of response_text in
  let st := scan response_text news_title lines in
  let summary1 :=
    match l_summary st with
    | [] => response_text
    | _ => l_summary st
    end in
  Result (l_korean_title st) summary1 (Some (l_key_quotes st))
         (resolve response_text lines (l_sentiment st)) response_text.

(** An exception [e], as the text [str(e)] that the handler prints. *)
Definition exn := str.

(** Lines 347-353: the [except Exception] handler. *)
Definition degraded (news_title : str) (e : exn) : result :=
  Result news_title (failure_prefix ++ e) None tok_neutral [].

(** [summarize_with_gemini]. [generate] is the outcome of lines 247-274
    (configuring the client, building the prompt, the generation call and
    reading [response.text]): the text, or the exception raised. *)
Definition summarize_with_gemini (generate : exn + str) (news_title : str)
    : exn + result :=
  catch (response_text <- generate ;;
         ret (interpret response_text news_title))
        (fun e => ret (degraded news_title e)).

End WithLower.

(** A lowering of the ASCII letters, to run the model on concrete texts. *)
Definition ascii_lower (s : str) : str :=
  map (fun c => if (65 <=? c)%N && (c <=? 90)%N then (c + 32)%N else c) s.

(** *** Vocabulary of the statements *)

(** The scan, started at index [k] in state [st], over the lines [ls]. *)
Definition scan_from (response_text : str) (lines : list str)
    (k : nat) (st : locals) (ls : list str) : locals :=
  fold_left (loop_body response_text lines) (combine (seq k (length ls)) ls) st.

(** [sub] occurs in [s] at index [i]. *)
Definition occurs_at (sub s : str) (i : Z) : Prop :=
  exists a b, s = a ++ sub ++ b /\ Z.of_nat (length a) = i.

(** The stripped lines up to the one at which the quotations loop breaks:
    a line that is not quote-prefixed and mentions the sentiment marker. *)
Fixpoint before_break (stripped_lines : list str) : list str :=
  match stripped_lines with
  | [] => []
  | x :: rest =>
      if negb (is_quote x) && str_in sentiment_marker x then []
      else x :: before_break rest
  end.

(** The bullet lines, stripped, among the three lines after a summary
    marker line; the quotation lines among the three lines after a
    quotations marker line, up to the break. *)
Definition bullets_after (post : list str) : list str :=
  filter is_bullet (map strip (firstn 3 post)).


(** One of the three labels that the prompt asks for. *)
Definition is_label (s : str) : Prop :=
  s = tok_positive \/ s = tok_negative \/ s = tok_neutral.

(** The tests of the second tier (lines 322-326). *)
Definition mentions_sentiment (lower : str -> str) (line : str) : bool :=
  str_in sentiment_word line || str_in sentiment_word_en (lower line).

Definition names_token (line : str) : bool :=
  str_in tok_positive line || str_in tok_negative line.

(** The sentiment names a token only when the raw text contains it. *)
Definition grounded (raw s : str) : Prop :=
  (s = tok_positive -> str_in tok_positive raw = true) /\
  (s = tok_negative -> str_in tok_negative raw = true).

End Interpreter.

Import Interpreter.

(** ** Concrete responses *)

Module Examples.
Import Stdlib.Strings.String.

Definition some_title : str := Eval vm_compute in lit "Stocks rally"%string.

Definition title_row : str := Eval vm_compute in lit "1. 한국어 제목: 테스트 제목"%string.
Definition positive_row : str := Eval vm_compute in lit "4. 감성 분석: 호재 - 이유"%string.

(** The scenario of the specification. *)
Definition scenario_text : str := title_row ++ newline ++ positive_row.



(** A response in the format that the prompt asks for. *)
Definition summary_row : str := Eval vm_compute in lit "2. 3줄 요약:"%string.
Definition bullet_one : str := Eval vm_compute in lit "• 첫째"%string.
Definition bullet_two : str := Eval vm_compute in lit "  - 둘째  "%string.
Definition bullet_three : str := Eval vm_compute in lit "• 셋째"%string.
Definition quotes_row : str := Eval vm_compute in lit "3. 핵심 문장:"%string.
Definition quote_one : str := Eval vm_compute in lit "> 인용 하나"%string.
Definition quote_two : str := Eval vm_compute in lit "> 인용 둘"%string.

Definition full_response : str :=
  join newline
    [title_row; summary_row; bullet_one; bullet_two; bullet_three;
     quotes_row; quote_one; quote_two; positive_row] ++ newline.

(** The pieces of the title row, and the title it carries. *)
Definition title_row_prefix : str := Eval vm_compute in lit "1. "%string.
Definition title_row_rest : str := Eval vm_compute in lit " 테스트 제목"%string.
Definition test_title : str := Eval vm_compute in lit "테스트 제목"%string.

(** A response with two title rows. *)
Definition title_a_row : str := Eval vm_compute in lit "한국어 제목: A"%string.
Definition title_b_row : str := Eval vm_compute in lit "한국어 제목: B"%string.
Definition title_a_rest : str := Eval vm_compute in lit " A"%string.
Definition title_a : str := Eval vm_compute in lit "A"%string.
Definition title_b : str := Eval vm_compute in lit "B"%string.
Definition two_titles_text : str := title_a_row ++ newline ++ title_b_row.

(** A response whose summary marker stands on the line of the title
    marker, followed by two bullets. *)
Definition both_markers_row : str :=
  Eval vm_compute in lit "한국어 제목: 3줄 요약:"%string.
Definition both_markers_text : str :=
  both_markers_row ++ newline ++ bullet_one ++ newline ++ bullet_three.




(** What the formatted response is expected to give. *)
Definition expected_summary : str := Eval vm_compute in lit "• 첫째
- 둘째
• 셋째"%string.

(** Prose that names both tokens and never mentions the sentiment label. *)
Definition prose_text : str := Eval vm_compute in lit "악재 우려에도 결국 호재"%string.

End Examples.

Import Examples.

(** ** The page: [get_sentiment_emoji] and the list handling of [main] *)

Module PageLiterals.
Import Stdlib.Strings.String.

Definition badge_positive : str := Eval vm_compute in lit "🟢 호재"%string.
Definition badge_negative : str := Eval vm_compute in lit "🔴 악재"%string.
Definition badge_neutral : str := Eval vm_compute in lit "⚪ 중립"%string.
Definition css_positive : str := Eval vm_compute in lit "sentiment-positive"%string.
Definition css_negative : str := Eval vm_compute in lit "sentiment-negative"%string.
Definition css_neutral : str := Eval vm_compute in lit "sentiment-neutral"%string.
Definition comma : str := Eval vm_compute in lit ","%string.
Definition underscore : str := Eval vm_compute in lit "_"%string.

End PageLiterals.

Import PageLiterals.

Module Page.

(** Lines 358-365. The function returns a pair: the badge text and the
    CSS class. *)
Definition get_sentiment_emoji (sentiment : str) : str * str :=
  if str_eqb sentiment tok_positive then (badge_positive, css_positive)
  else if str_eqb sentiment tok_negative then (badge_negative, css_negative)
  else (badge_neutral, css_neutral).

(** *** Lines 413-415: the tickers typed by the user *)

Section CustomTickers.

(** The full upper-case mapping of one code point (one to three code
    points); [str.upper] maps each code point of the text in turn. The
    table is that of the Python runtime. *)
Variable upper_char : char -> str.

Definition upper (s : str) : str := flat_map upper_char s.

(** [selected_tickers] after lines 413-415. An empty [custom_ticker] is
    falsy. *)
Definition extend_selected (selected_tickers : list str) (custom_ticker : str)
    : list str :=
  match custom_ticker with
  | [] => selected_tickers
  | _ :: _ =>
      let custom_list :=
        map (fun t => upper (strip t)) (split custom_ticker comma) in
      selected_tickers ++ custom_list
  end.

End CustomTickers.

(** A mapping of the ASCII letters, to run the model on concrete texts. *)
Definition ascii_upper_char (c : char) : str :=
  [if (97 <=? c)%N && (c <=? 122)%N then (c - 32)%N else c].

(** *** Lines 459-473: collecting the news and removing duplicates *)

Section News.

(** A news item, as far as [main] reads it: [news['title']] is a text. *)
Variable news : Type.
Variable title : news -> str.

(** [st.session_state.news_data]: a dict from ticker to news list, in
    insertion order. *)
Definition news_dict := list (str * list news).

Fixpoint dict_get (d : news_dict) (k : str) : option (list news) :=
  match d with
  | [] => None
  | (k', v) :: d' => if str_eqb k k' then Some v else dict_get d' k
  end.

(** [d[k] = v] *)
Fixpoint dict_set (d : news_dict) (k : str) (v : list news) : news_dict :=
  match d with
  | [] => [(k, v)]
  | (k', v') :: d' =>
      if str_eqb k k' then (k', v) :: d' else (k', v') :: dict_set d' k v
  end.

(** The state of the loop of lines 460-464: the cache, the tickers for
    which [fetch_news] was called (in call order), and [all_news]. *)
Record collect_state := Collect {
  news_data : news_dict;
  fetched : list str;
  all_news : list news
}.

(** What the call [fetch_news(ticker, news_count)] returns. *)
Variable fetch_news : str -> list news.

Definition collect_body (st : collect_state) (ticker : str) : collect_state :=
  let st1 :=
    match dict_get (news_data st) ticker with
    | None =>
        let news_list := fetch_news ticker in
        Collect (dict_set (news_data st) ticker news_list)
                (fetched st ++ [ticker]) (all_news st)
    | Some _ => st
    end in
  Collect (news_data st1) (fetched st1)
          (all_news st1 ++ match dict_get (news_data st1) ticker with
                           | Some l => l
                           | None => []
                           end).

Definition collect (selected_tickers : list str) (cache : news_dict)
    : collect_state :=
  fold_left collect_body selected_tickers (Collect cache [] []).

(** Lines 467-473. [seen_titles] is a set; the list holds its members. *)
Fixpoint unique_loop (all_news0 : list news) (seen_titles : list str)
    (unique_news : list news) : list news :=
  match all_news0 with
  | [] => unique_news
  | n :: rest =>
      if negb (existsb (str_eqb (title n)) seen_titles)
      then unique_loop rest (title n :: seen_titles) (unique_news ++ [n])
      else unique_loop rest seen_titles unique_news
  end.

Definition unique (all_news0 : list news) : list news :=
  unique_loop all_news0 [] [].

(** The items of a list whose title is neither in [seen] nor carried by an
    earlier item of the list. *)
Fixpoint keep_new (seen : list str) (l : list news) : list news :=
  match l with
  | [] => []
  | n :: rest =>
      if existsb (str_eqb (title n)) seen then keep_new seen rest
      else n :: keep_new (title n :: seen) rest
  end.

(** The news shown for a ticker: the cached list, or else the fetched one. *)
Definition cached_or_fetched (cache : news_dict) (ticker : str) : list news :=
  match dict_get cache ticker with
  | Some l => l
  | None => fetch_news ticker
  end.

End News.

Arguments dict_get {news} d k.
Arguments dict_set {news} d k v.
Arguments Collect {news} news_data fetched all_news.
Arguments news_data {news} c.
Arguments fetched {news} c.
Arguments all_news {news} c.
Arguments collect_body {news} fetch_news st ticker.
Arguments collect {news} fetch_news selected_tickers cache.
Arguments unique_loop {news} title all_news0 seen_titles unique_news.
Arguments unique {news} title all_news0.
Arguments keep_new {news} title seen l.
Arguments cached_or_fetched {news} fetch_news cache ticker.

(** *** Lines 495-497: the rows of the chart grid *)

(** [range(start, stop, step)] for a positive step and [start <= stop] *)
Definition range_step (start stop step : nat) : list nat :=
  map (fun k => start + k * step) (seq 0 ((stop - start + step - 1) / step)).

(** [l[a:b]] for [a <= b] *)
Definition slice {A : Type} (l : list A) (a b : nat) : list A :=
  firstn (b - a) (skipn a l).

Definition chart_rows (selected_tickers : list str) : list (list str) :=
  map (fun row_start => slice selected_tickers row_start (row_start + 3))
      (range_step 0 (length selected_tickers) 3).

(** *** Line 551: the key of a card *)

(** [str(n)] of a non-negative integer: its decimal digits. *)
Fixpoint digits (d : Decimal.uint) : str :=
  match d with
  | Decimal.Nil => []
  | Decimal.D0 d' => 48%N :: digits d'
  | Decimal.D1 d' => 49%N :: digits d'
  | Decimal.D2 d' => 50%N :: digits d'
  | Decimal.D3 d' => 51%N :: digits d'
  | Decimal.D4 d' => 52%N :: digits d'
  | Decimal.D5 d' => 53%N :: digits d'
  | Decimal.D6 d' => 54%N :: digits d'
  | Decimal.D7 d' => 55%N :: digits d'
  | Decimal.D8 d' => 56%N :: digits d'
  | Decimal.D9 d' => 57%N :: digits d'
  end.

Definition str_of_nat (n : nat) : str := digits (Nat.to_uint n).

(** [f"{news['ticker']}_{idx}"] *)
Definition news_key (ticker : str) (idx : nat) : str :=
  ticker ++ underscore ++ str_of_nat idx.

End Page.

Import Page.

Module PageExamples.
Import Stdlib.Strings.String.

Definition spy : str := Eval vm_compute in lit "SPY"%string.
Definition amd : str := Eval vm_compute in lit "AMD"%string.
Definition coin : str := Eval vm_compute in lit "COIN"%string.
Definition nvda : str := Eval vm_compute in lit "NVDA"%string.
Definition typed_tickers : str := Eval vm_compute in lit "amd, coin,"%string.
Definition nvda_12 : str := Eval vm_compute in lit "NVDA_12"%string.

(** News items reduced to their title, and a source with one shared
    headline. *)
Definition headlines (ticker : str) : list str :=
  if str_eqb ticker spy then [spy; amd] else [ticker; amd].

End PageExamples.

Import PageExamples.

(** ** [fetch_news], lines 94-166 *)

Module FetchLiterals.
Import Stdlib.Strings.String.

Definition k_content : str := Eval vm_compute in lit "content"%string.
Definition k_title : str := Eval vm_compute in lit "title"%string.
Definition k_canonicalUrl : str := Eval vm_compute in lit "canonicalUrl"%string.
Definition k_clickThroughUrl : str := Eval vm_compute in lit "clickThroughUrl"%string.
Definition k_url : str := Eval vm_compute in lit "url"%string.
Definition k_link : str := Eval vm_compute in lit "link"%string.
Definition k_provider : str := Eval vm_compute in lit "provider"%string.
Definition k_displayName : str := Eval vm_compute in lit "displayName"%string.
Definition k_publisher : str := Eval vm_compute in lit "publisher"%string.
Definition k_thumbnail : str := Eval vm_compute in lit "thumbnail"%string.
Definition k_resolutions : str := Eval vm_compute in lit "resolutions"%string.
Definition k_pubDate : str := Eval vm_compute in lit "pubDate"%string.
Definition k_providerPublishTime : str :=
  Eval vm_compute in lit "providerPublishTime"%string.
Definition k_summary : str := Eval vm_compute in lit "summary"%string.
Definition no_title : str := Eval vm_compute in lit "제목 없음"%string.
Definition no_publisher : str := Eval vm_compute in lit "알 수 없음"%string.
Definition no_date : str := Eval vm_compute in lit "날짜 없음"%string.
Definition no_link : str := Eval vm_compute in lit "#"%string.
Definition utc_offset : str := Eval vm_compute in lit "+00:00"%string.

End FetchLiterals.

Import FetchLiterals.

Module Fetch.

Import MonadNotation.
Local Open Scope monad_scope.

(** The values that the news payload is made of: what JSON decoding
    gives. A dict is the list of its entries, with distinct keys. *)
#[warnings="-register-all"]
Inductive pyval : Type :=
| PNone
| PBool (b : bool)
| PInt (n : Z)
| PFloat (f : PrimFloat.float)
| PStr (s : str)
| PList (l : list pyval)
| PDict (d : list (str * pyval)).

(** The exceptions that the operations on these values raise, and the
    failure of a library call. Slicing a dict raises [TypeError] (a
    [KeyError] from Python 3.12 on); all are caught alike. *)
Inductive py_exn := AttributeError | TypeError | KeyError | IndexError | LibraryError.

(** [bool(v)] *)
Definition truthy (v : pyval) : bool :=
  match v with
  | PNone => false
  | PBool b => b
  | PInt n => negb (n =? 0)%Z
  | PFloat f => negb (PrimFloat.eqb f PrimFloat.zero)
  | PStr s => match s with [] => false | _ :: _ => true end
  | PList l => match l with [] => false | _ :: _ => true end
  | PDict d => match d with [] => false | _ :: _ => true end
  end.

(** [d.get(k, default)] on a dict *)
Fixpoint lookup (d : list (str * pyval)) (k : str) (default : pyval) : pyval :=
  match d with
  | [] => default
  | (k', v) :: d' => if str_eqb k k' then v else lookup d' k default
  end.

(** [v.get(k, default)]: only a dict has the method. *)
Definition get (v : pyval) (k : str) (default : pyval) : py_exn + pyval :=
  match v with
  | PDict d => ret (lookup d k default)
  | _ => raise AttributeError
  end.

(** [len(v)] *)
Definition py_len (v : pyval) : py_exn + nat :=
  match v with
  | PStr s => ret (length s)
  | PList l => ret (length l)
  | PDict d => ret (length d)
  | _ => raise TypeError
  end.

(** [v[0]]: the keys of a payload dict are texts, never [0]. *)
Definition index0 (v : pyval) : py_exn + pyval :=
  match v with
  | PList (x :: _) => ret x
  | PStr (c :: _) => ret (PStr [c])
  | PList [] | PStr [] => raise IndexError
  | PDict _ => raise KeyError
  | _ => raise TypeError
  end.

(** [l[:n]] on a list *)
Definition slice_to {A : Type} (l : list A) (n : Z) : list A :=
  if (0 <=? n)%Z then firstn (Z.to_nat n) l
  else firstn (length l - Z.to_nat (- n)) l.

(** [v[:n]] *)
Definition py_slice_to (v : pyval) (n : Z) : py_exn + pyval :=
  match v with
  | PStr s => ret (PStr (slice_to s n))
  | PList l => ret (PList (slice_to l n))
  | _ => raise TypeError
  end.

(** The values that [for x in v] visits *)
Definition iterate (v : pyval) : py_exn + list pyval :=
  match v with
  | PList l => ret l
  | PStr s => ret (map (fun c => PStr [c]) s)
  | PDict d => ret (map (fun kv => PStr (fst kv)) d)
  | _ => raise TypeError
  end.

(** [s.replace('Z', '+00:00')] *)
Definition replace_Z (s : str) : str :=
  flat_map (fun c => if char_eqb c 90%N then utc_offset else [c]) s.

(** The dict [news_item] of lines 152-160. *)
Record news_item := NewsItem {
  item_title : pyval;
  item_link : pyval;
  item_publisher : pyval;
  item_thumbnail : pyval;
  item_published : pyval;
  item_summary : pyval;
  item_ticker : str
}.

(** A call of [st.error] for a ticker, with the exception caught. *)
Inductive ui_error := StError (ticker_symbol : str) (e : py_exn).

Section WithLibraries.

(** [yf.Ticker(ticker_symbol).news]: the value, or the exception raised.
    Both reads of line 107 see the same value. *)
Variable ticker_news : str -> py_exn + pyval.

(** [fromisoformat(s).strftime('%Y-%m-%d %H:%M')] and
    [datetime.fromtimestamp(v).strftime('%Y-%m-%d %H:%M')]: the text, or
    the exception raised. *)
Variable iso_display : str -> py_exn + str.
Variable timestamp_display : pyval -> py_exn + str.

(** Lines 118-124 *)
Definition extract_link (nd : list (str * pyval)) (content : pyval)
    : py_exn + pyval :=
  canonical <- get content k_canonicalUrl PNone ;;
  if truthy canonical then get canonical k_url (PStr no_link)
  else
    click <- get content k_clickThroughUrl PNone ;;
    if truthy click then get click k_url (PStr no_link)
    else if truthy (lookup nd k_link PNone)
         then ret (lookup nd k_link (PStr no_link))
         else ret (PStr no_link).

(** Lines 131-136 *)
Definition extract_thumbnail (nd : list (str * pyval)) (content : pyval)
    : py_exn + pyval :=
  thumbnail_data <- get content k_thumbnail (lookup nd k_thumbnail PNone) ;;
  if truthy thumbnail_data then
    resolutions <- get thumbnail_data k_resolutions (PList []) ;;
    if truthy resolutions then
      n <- py_len resolutions ;;
      if 0 <? n then
        first <- index0 resolutions ;;
        get first k_url PNone
      else ret PNone
    else ret PNone
  else ret PNone.

(** Lines 139-150. The inner [try] has a bare [except]. *)
Definition extract_published (nd : list (str * pyval)) (content : pyval)
    : py_exn + pyval :=
  pub_date_str <- get content k_pubDate (PStr []) ;;
  if truthy pub_date_str then
    catch (match pub_date_str with
           | PStr s => shown <- iso_display (replace_Z s) ;; ret (PStr shown)
           | _ => raise AttributeError
           end)
          (fun _ =>
             n <- py_len pub_date_str ;;
             if 16 <? n then py_slice_to pub_date_str 16 else ret pub_date_str)
  else if truthy (lookup nd k_providerPublishTime PNone) then
    shown <- timestamp_display (lookup nd k_providerPublishTime (PInt 0)) ;;
    ret (PStr shown)
  else ret (PStr no_date).

(** Lines 111-160: the body of the loop, for one element of the list. *)
Definition process_item (ticker_symbol : str) (news : pyval)
    : py_exn + news_item :=
  match news with
  | PDict nd =>
      let content := lookup nd k_content news in
      title <- get content k_title (lookup nd k_title (PStr no_title)) ;;
      link <- extract_link nd content ;;
      provider <- get content k_provider (PDict []) ;;
      publisher <- get provider k_displayName
                       (lookup nd k_publisher (PStr no_publisher)) ;;
      thumbnail_url <- extract_thumbnail nd content ;;
      published <- extract_published nd content ;;
      summary <- get content k_summary (PStr []) ;;
      ret (NewsItem title link publisher thumbnail_url published summary
                    ticker_symbol)
  | _ => raise AttributeError
  end.

(** Lines 109-161: the loop, appending to [processed_news]. *)
Fixpoint process_all (ticker_symbol : str) (news_list : list pyval)
    (processed_news : list news_item) : py_exn + list news_item :=
  match news_list with
  | [] => ret processed_news
  | news :: rest =>
      news_item <- process_item ticker_symbol news ;;
      process_all ticker_symbol rest (processed_news ++ [news_item])
  end.

(** Lines 106-110: the elements that the loop visits. *)
Definition news_elements (ticker_symbol : str) (max_news : Z)
    : py_exn + list pyval :=
  all <- ticker_news ticker_symbol ;;
  news_list <- (if truthy all then py_slice_to all max_news else ret (PList [])) ;;
  iterate news_list.

(** Lines 106-163: the [try] block. *)
Definition fetch_news_body (ticker_symbol : str) (max_news : Z)
    : py_exn + list news_item :=
  elements <- news_elements ticker_symbol max_news ;;
  process_all ticker_symbol elements [].

(** [fetch_news]: the returned list and the calls of [st.error]. *)
Definition fetch_news (ticker_symbol : str) (max_news : Z)
    : list news_item * list ui_error :=
  match fetch_news_body ticker_symbol max_news with
  | inr processed_news => (processed_news, [])
  | inl e => ([], [StError ticker_symbol e])
  end.

End WithLibraries.

(** [isinstance(v, dict)] *)
Definition is_dict (v : pyval) : bool :=
  match v with
  | PDict _ => true
  | _ => false
  end.

End Fetch.

Import Fetch.

Module FetchExamples.
Import Stdlib.Strings.String.

Definition headline : str := Eval vm_compute in lit "Nvidia soars"%string.
Definition story_url : str := Eval vm_compute in lit "https://example.com/a"%string.
Definition other_url : str := Eval vm_compute in lit "https://example.com/b"%string.
Definition reuters : str := Eval vm_compute in lit "Reuters"%string.
Definition iso_date : str := Eval vm_compute in lit "2024-05-01T12:30:00Z"%string.
Definition iso_date_utc : str := Eval vm_compute in lit "2024-05-01T12:30:00+00:00"%string.
Definition shown_date : str := Eval vm_compute in lit "2024-05-01 12:30"%string.
Definition odd_date : str := Eval vm_compute in lit "yesterday, around noon"%string.
Definition odd_date_cut : str := Eval vm_compute in lit "yesterday, aroun"%string.
Definition thumb_url : str := Eval vm_compute in lit "https://example.com/t.png"%string.

(** An element in the nested format, with every entry. *)
Definition nested_element : pyval :=
  PDict [(k_content,
          PDict [(k_title, PStr headline);
                 (k_canonicalUrl, PDict [(k_url, PStr story_url)]);
                 (k_clickThroughUrl, PDict [(k_url, PStr other_url)]);
                 (k_provider, PDict [(k_displayName, PStr reuters)]);
                 (k_thumbnail,
                  PDict [(k_resolutions,
                          PList [PDict [(k_url, PStr thumb_url)]; PDict []])]);
                 (k_pubDate, PStr iso_date)])].

(** An element in the flat format, with a date that cannot be parsed. *)
Definition flat_element : pyval :=
  PDict [(k_title, PStr headline); (k_link, PStr other_url);
         (k_publisher, PStr reuters); (k_pubDate, PStr odd_date)].

(** An element whose provider is [null]. *)
Definition null_provider_element : pyval :=
  PDict [(k_content, PDict [(k_title, PStr headline); (k_provider, PNone)])].

(** Library calls for the concrete runs: one date is parsed, no timestamp
    is. *)
Definition sample_iso_display (s : str) : py_exn + str :=
  if str_eqb s iso_date_utc then inr shown_date else inl LibraryError.

Definition sample_timestamp_display (v : pyval) : py_exn + str :=
  inl LibraryError.

Definition sample_news (payload : pyval) (ticker_symbol : str) : py_exn + pyval :=
  inr payload.

End FetchExamples.

Import FetchExamples.

(** ** [fetch_stock_chart], lines 171-229 *)

Module ChartLiterals.
Import Stdlib.Strings.String.

Definition p_5d : str := Eval vm_compute in lit "5d"%string.
Definition p_1mo : str := Eval vm_compute in lit "1mo"%string.
Definition p_3mo : str := Eval vm_compute in lit "3mo"%string.
Definition p_6mo : str := Eval vm_compute in lit "6mo"%string.
Definition p_1y : str := Eval vm_compute in lit "1y"%string.
Definition p_2y : str := Eval vm_compute in lit "2y"%string.
Definition p_5y : str := Eval vm_compute in lit "5y"%string.
Definition p_max : str := Eval vm_compute in lit "max"%string.
Definition i_15m : str := Eval vm_compute in lit "15m"%string.
Definition i_1h : str := Eval vm_compute in lit "1h"%string.
Definition i_1d : str := Eval vm_compute in lit "1d"%string.
Definition i_1wk : str := Eval vm_compute in lit "1wk"%string.
Definition i_1mo : str := Eval vm_compute in lit "1mo"%string.

End ChartLiterals.

Import ChartLiterals.

Module FloatLiterals.
Import PrimFloat.

Definition f_0 : float := 0%float.
Definition f_1 : float := 1%float.
Definition f_2 : float := 2%float.
Definition f_3 : float := 3%float.
Definition f_100 : float := 100%float.

End FloatLiterals.

Import FloatLiterals.

Module Chart.

Import MonadNotation.
Local Open Scope monad_scope.

(** Lines 186-195 *)
Definition interval_map : list (str * str) :=
  [(p_5d, i_15m); (p_1mo, i_1h); (p_3mo, i_1d); (p_6mo, i_1d);
   (p_1y, i_1d); (p_2y, i_1wk); (p_5y, i_1wk); (p_max, i_1mo)].

(** [d.get(k, default)] *)
Fixpoint map_get (d : list (str * str)) (k default : str) : str :=
  match d with
  | [] => default
  | (k', v) :: d' => if str_eqb k k' then v else map_get d' k default
  end.

(** A call of [st.error] of line 228, with the exception caught. *)
Inductive chart_error := StChartError (ticker_symbol : str) (e : py_exn).

Section WithHistory.

(** The price history, a data frame of the library, with the reads that
    the function makes of it; each read of a column can raise. *)
Variable frame : Type.
Variable empty : frame -> bool.
Variable rows : frame -> nat.
Variable close_last : frame -> py_exn + PrimFloat.float.
Variable close_first : frame -> py_exn + PrimFloat.float.
Variable close_column : frame -> py_exn + frame.
Variable high_max : frame -> py_exn + PrimFloat.float.
Variable low_min : frame -> py_exn + PrimFloat.float.

(** [yf.Ticker(ticker_symbol).history(period=period, interval=interval)];
    [None] when the call gives no interval. *)
Variable history : str -> str -> option str -> py_exn + frame.

(** The returned dict (lines 217-226). [change_pct] is the integer [0]
    when the first price is zero. *)
Record chart := ChartData {
  chart_ticker : str;
  chart_data : frame;
  current_price : PrimFloat.float;
  change : PrimFloat.float;
  change_pct : pyval;
  high : PrimFloat.float;
  low : PrimFloat.float;
  data_points : nat
}.

(** [hist.empty or len(hist) < 2] *)
Definition too_short (hist : frame) : bool := empty hist || (rows hist <? 2).

(** Lines 208-226 *)
Definition build_chart (ticker_symbol : str) (hist : frame) : py_exn + chart :=
  current <- close_last hist ;;
  prev_price <- close_first hist ;;
  let change0 := PrimFloat.sub current prev_price in
  let pct :=
    if negb (PrimFloat.eqb prev_price PrimFloat.zero)
    then PFloat (PrimFloat.mul (PrimFloat.div change0 prev_price) f_100)
    else PInt 0 in
  chart_df <- close_column hist ;;
  high0 <- high_max hist ;;
  low0 <- low_min hist ;;
  ret (ChartData ticker_symbol chart_df current change0 pct high0 low0 (rows hist)).

(** Lines 204-229, for the history that is kept. *)
Definition finish (ticker_symbol : str) (hist : frame)
    : option chart * list chart_error :=
  if too_short hist then (None, [])
  else
    match build_chart ticker_symbol hist with
    | inr c => (Some c, [])
    | inl e => (None, [StChartError ticker_symbol e])
    end.

(** [fetch_stock_chart]: the returned value ([None] or the dict), the
    calls of [st.error], and the intervals with which the history was
    asked for, in call order. *)
Definition fetch_stock_chart (ticker_symbol period : str)
    : option chart * list chart_error * list (option str) :=
  let interval := map_get interval_map period i_1d in
  match history ticker_symbol period (Some interval) with
  | inl e => (None, [StChartError ticker_symbol e], [Some interval])
  | inr hist =>
      if too_short hist then
        match history ticker_symbol period None with
        | inl e =>
            (None, [StChartError ticker_symbol e], [Some interval; None])
        | inr hist' => (finish ticker_symbol hist', [Some interval; None])
        end
      else (finish ticker_symbol hist, [Some interval])
  end.

End WithHistory.

Arguments ChartData {frame} _ _ _ _ _ _ _ _.
Arguments too_short {frame} empty rows hist.
Arguments build_chart {frame} rows close_last close_first close_column
  high_max low_min ticker_symbol hist.
Arguments finish {frame} empty rows close_last close_first close_column
  high_max low_min ticker_symbol hist.
Arguments fetch_stock_chart {frame} empty rows close_last close_first
  close_column high_max low_min history ticker_symbol period.
Arguments chart_ticker {frame} c.
Arguments chart_data {frame} c.
Arguments change_pct {frame} c.
Arguments data_points {frame} c.

(** A frame reduced to its closing prices, to run the model. *)
Definition sample_frame := list PrimFloat.float.

Definition sample_empty (hist : sample_frame) : bool :=
  match hist with
  | [] => true
  | _ :: _ => false
  end.

Definition sample_last (hist : sample_frame) : py_exn + PrimFloat.float :=
  match rev hist with
  | x :: _ => inr x
  | [] => inl IndexError
  end.

Definition sample_first (hist : sample_frame) : py_exn + PrimFloat.float :=
  match hist with
  | x :: _ => inr x
  | [] => inl IndexError
  end.

(** A source with hourly data for no ticker and three daily prices. *)
Definition sample_history (ticker_symbol period : str) (interval : option str)
    : py_exn + sample_frame :=
  match interval with
  | Some _ => inr [f_1]
  | None => inr [f_0; f_2; f_3]
  end.

End Chart.

Import Chart.

(** * Proofs *)

(** ** The literals and the scenario of the specification *)

Example literals_check :
  title_marker = [54620; 44397; 50612; 32; 51228; 47785; 58]%N /\
  summary_marker = [51; 51460; 32; 50836; 50557; 58]%N /\
  quotes_marker = [54645; 49900; 32; 47928; 51109; 58]%N /\
  sentiment_marker = [44048; 49457; 32; 48516; 49437]%N /\
  sentiment_marker_nospace = [44048; 49457; 48516; 49437]%N /\
  tok_positive = [54840; 51116]%N /\ tok_negative = [50501; 51116]%N /\
  tok_neutral = [51473; 47549]%N /\ bullet_dot = [8226]%N /\
  failure_prefix =
    [9888; 65039; 32; 50836; 50557; 32; 49373; 49457; 32; 49892; 54056; 58; 32]%N.
Proof. repeat split. Qed.

Example scenario_result :
  exists r,
    summarize_with_gemini ascii_lower (inr scenario_text) some_title = inr r /\
    korean_title r = [53580; 49828; 53944; 32; 51228; 47785]%N /\
    sentiment r = tok_positive.
Proof. eexists. split; [vm_compute; reflexivity|]. split; reflexivity. Qed.

(** The formatted response: the second bullet is stripped, the loop over
    the quotations breaks at the sentiment row, and the raw response keeps
    its final newline. *)
Example full_response_result :
  summarize_with_gemini ascii_lower (inr full_response) some_title
  = inr (Result [53580; 49828; 53944; 32; 51228; 47785]%N
           (join newline [bullet_one; strip bullet_two; bullet_three])
           (Some (join newline [quote_one; quote_two]))
           tok_positive full_response).
Proof. vm_compute. reflexivity. Qed.

Example generation_failure_result :
  summarize_with_gemini ascii_lower (inl [113; 117; 111; 116; 97]%N) some_title
  = inr (Result some_title (failure_prefix ++ [113; 117; 111; 116; 97]%N)
           None tok_neutral []).
Proof. reflexivity. Qed.

(** ** Facts about the text operations *)

Section TextFacts.

Lemma char_eqb_eq (a b : char) : char_eqb a b = true <-> a = b.
Proof. apply N.eqb_eq. Qed.

Lemma str_eqb_eq (a b : str) : str_eqb a b = true <-> a = b.
Proof.
  revert b; induction a as [|x a IH]; intros [|y b]; simpl;
    try (split; [reflexivity || discriminate | reflexivity || discriminate]).
  rewrite andb_true_iff, char_eqb_eq, IH.
  split; [intros [-> ->]; reflexivity | intros H; injection H; auto].
Qed.

Lemma str_eqb_refl (a : str) : str_eqb a a = true.
Proof. apply str_eqb_eq; reflexivity. Qed.

Lemma startswith_spec (s p : str) :
  startswith s p = true <-> exists r, s = p ++ r.
Proof.
  revert s; induction p as [|x p IH]; intros s; simpl.
  - split; [intros _; exists s; reflexivity | reflexivity].
  - destruct s as [|y s].
    + split; [discriminate | intros [r H]; discriminate].
    + rewrite andb_true_iff, char_eqb_eq, IH. split.
      * intros [-> [r ->]]. exists r; reflexivity.
      * intros [r H]. injection H as -> ->. split; [reflexivity | exists r; reflexivity].
Qed.

Lemma startswith_app (p r : str) : startswith (p ++ r) p = true.
Proof. apply startswith_spec. exists r; reflexivity. Qed.

(** [sub in s] holds exactly when [sub] occurs somewhere in [s]. *)
Lemma str_in_spec (sub s : str) :
  str_in sub s = true <-> exists a b, s = a ++ sub ++ b.
Proof.
  induction s as [|c s IH]; simpl.
  - rewrite orb_false_r, startswith_spec. split.
    + intros [r H]. exists [], r; exact H.
    + intros (a & b & H). destruct a; [exists b; exact H | discriminate].
  - rewrite orb_true_iff, startswith_spec, IH. split.
    + intros [[r H] | (a & b & H)].
      * exists [], r; exact H.
      * exists (c :: a), b. simpl. rewrite H. reflexivity.
    + intros (a & b & H). destruct a as [|c' a]; simpl in H.
      * left. exists b; exact H.
      * right. injection H as _ H. exists a, b; exact H.
Qed.

Lemma str_in_intro (sub a b : str) : str_in sub (a ++ sub ++ b) = true.
Proof. apply str_in_spec. exists a, b; reflexivity. Qed.

Lemma str_in_app_r (sub a s : str) :
  str_in sub s = true -> str_in sub (a ++ s) = true.
Proof.
  rewrite !str_in_spec. intros (x & y & ->).
  exists (a ++ x), y. rewrite <- app_assoc. reflexivity.
Qed.

Lemma str_in_app_l (sub s b : str) :
  str_in sub s = true -> str_in sub (s ++ b) = true.
Proof.
  rewrite !str_in_spec. intros (x & y & ->).
  exists x, (y ++ b). rewrite <- !app_assoc. reflexivity.
Qed.

(** A text that contains [x ++ sub ++ y] contains [sub]. *)
Lemma str_in_part (x sub y s : str) :
  str_in (x ++ sub ++ y) s = true -> str_in sub s = true.
Proof.
  rewrite !str_in_spec. intros (a & b & ->).
  exists (a ++ x), (y ++ b). rewrite <- !app_assoc. reflexivity.
Qed.

Lemma str_in_rev (sub s : str) : str_in (rev sub) (rev s) = str_in sub s.
Proof.
  apply eq_iff_eq_true. rewrite !str_in_spec. split.
  - intros (a & b & H). exists (rev b), (rev a).
    rewrite <- (rev_involutive s), H, !rev_app_distr, rev_involutive, app_assoc.
    reflexivity.
  - intros (a & b & ->). exists (rev b), (rev a).
    rewrite !rev_app_distr, app_assoc. reflexivity.
Qed.

(** *** [strip] keeps the occurrences of a token without spaces at its ends *)

Lemma lstrip_str_in (c : char) (t s : str) :
  isspace c = false -> str_in (c :: t) (lstrip s) = str_in (c :: t) s.
Proof.
  intros Hc. induction s as [|x s IH]; [reflexivity|].
  simpl lstrip. destruct (isspace x) eqn:Hx; [|reflexivity].
  rewrite IH. simpl.
  destruct (char_eqb c x) eqn:E; [|reflexivity].
  apply char_eqb_eq in E. congruence.
Qed.

Lemma rstrip_str_in (c : char) (t s : str) :
  isspace c = false -> str_in (t ++ [c]) (rstrip s) = str_in (t ++ [c]) s.
Proof.
  intros Hc. unfold rstrip.
  rewrite <- str_in_rev, rev_involutive, rev_app_distr. simpl.
  rewrite lstrip_str_in by exact Hc.
  rewrite <- (str_in_rev (t ++ [c]) s), rev_app_distr. reflexivity.
Qed.

Lemma strip_str_in (c1 c2 : char) (t : str) (s : str) :
  isspace c1 = false -> isspace c2 = false ->
  str_in (c1 :: t ++ [c2]) (strip s) = str_in (c1 :: t ++ [c2]) s.
Proof.
  intros H1 H2. unfold strip. change (c1 :: t ++ [c2]) with ((c1 :: t) ++ [c2]).
  rewrite (rstrip_str_in c2 (c1 :: t) (lstrip s) H2). simpl app.
  apply lstrip_str_in; exact H1.
Qed.

Lemma strip_positive (s : str) : str_in tok_positive (strip s) = str_in tok_positive s.
Proof. apply (strip_str_in 54840%N 51116%N []); reflexivity. Qed.

Lemma strip_negative (s : str) : str_in tok_negative (strip s) = str_in tok_negative s.
Proof. apply (strip_str_in 50501%N 51116%N []); reflexivity. Qed.

End TextFacts.

(** ** [rfind] returns the last occurrence *)


Section RfindFacts.

Lemma rfind_lower_bound (s sub : str) : (-1 <= rfind s sub)%Z.
Proof.
  induction s as [|c s IH]; simpl.
  - destruct (startswith [] sub); lia.
  - destruct (Z.leb_spec 0 (rfind s sub)); [lia|].
    destruct (startswith (c :: s) sub); lia.
Qed.

Lemma rfind_occurs (s sub : str) :
  (0 <= rfind s sub)%Z -> occurs_at sub s (rfind s sub).
Proof.
  induction s as [|c s IH]; simpl.
  - destruct (startswith [] sub) eqn:E; [|lia]. intros _.
    apply startswith_spec in E. destruct E as [r E].
    exists [], r. split; [exact E | reflexivity].
  - destruct (Z.leb_spec 0 (rfind s sub)) as [Hr|Hr].
    + intros _. destruct (IH Hr) as (a & b & -> & Ha).
      exists (c :: a), b. split; [reflexivity|]. simpl length. lia.
    + destruct (startswith (c :: s) sub) eqn:E; [|lia]. intros _.
      apply startswith_spec in E. destruct E as [r E].
      exists [], r. split; [exact E | reflexivity].
Qed.

Lemma rfind_upper_bound (s sub : str) (i : Z) :
  occurs_at sub s i -> (i <= rfind s sub)%Z.
Proof.
  revert i; induction s as [|c s IH]; intros i (a & b & E & Hi).
  - destruct a; [|discriminate]. destruct sub; [|discriminate].
    simpl in *. lia.
  - simpl. destruct a as [|c' a].
    + simpl in E, Hi. subst i.
      destruct (Z.leb_spec 0 (rfind s sub)); [lia|].
      rewrite E, startswith_app. lia.
    + simpl in E. injection E as _ E.
      assert (H : (Z.of_nat (length a) <= rfind s sub)%Z)
        by (apply IH; exists a, b; split; [exact E | reflexivity]).
      simpl length in Hi.
      destruct (Z.leb_spec 0 (rfind s sub)); lia.
Qed.

Lemma rfind_absent (s sub : str) :
  str_in sub s = false -> rfind s sub = (-1)%Z.
Proof.
  intros H. pose proof (rfind_lower_bound s sub) as Hl.
  destruct (Z.eq_dec (rfind s sub) (-1)) as [E|E]; [exact E|].
  assert (Hr : (0 <= rfind s sub)%Z) by lia.
  destruct (rfind_occurs s sub Hr) as (a & b & -> & _).
  rewrite str_in_intro in H. discriminate.
Qed.

Lemma rfind_present (s sub : str) :
  str_in sub s = true -> (0 <= rfind s sub)%Z.
Proof.
  intros H. apply str_in_spec in H. destruct H as (a & b & ->).
  assert (H : occurs_at sub (a ++ sub ++ b) (Z.of_nat (length a)))
    by (exists a, b; split; reflexivity).
  apply rfind_upper_bound in H. lia.
Qed.

Lemma app_same_length (a a' x y : str) :
  a ++ x = a' ++ y -> length a = length a' -> a = a' /\ x = y.
Proof.
  revert a'; induction a as [|c a IH]; intros [|c' a'] E L; simpl in *;
    try discriminate.
  - split; [reflexivity | exact E].
  - injection E as -> E. injection L as L.
    destruct (IH a' E L) as [-> ->]. split; reflexivity.
Qed.

(** The two tokens never occur at the same index. *)
Lemma tokens_apart (s : str) (i : Z) :
  occurs_at tok_positive s i -> occurs_at tok_negative s i -> False.
Proof.
  intros (a & b & E & Ha) (a' & b' & E' & Ha').
  rewrite E in E'. apply app_same_length in E'; [|lia].
  destruct E' as [_ E']. discriminate.
Qed.

End RfindFacts.

(** ** The last piece of [split] *)

Section SplitFacts.

Lemma split_go_nonempty (sep : str) (skip : nat) (cur s : str) :
  split_go sep skip cur s <> [].
Proof.
  revert skip cur; induction s as [|c s IH]; intros skip cur; simpl.
  - discriminate.
  - destruct skip; [|apply IH].
    destruct (startswith (c :: s) sep); [discriminate | apply IH].
Qed.

Lemma last_cons_nonempty (x : str) (l : list str) :
  l <> [] -> last (x :: l) [] = last l [].
Proof. destruct l; [congruence | reflexivity]. Qed.

Lemma split_go_absent (sep cur s : str) :
  str_in sep s = false -> split_go sep 0 cur s = [rev cur ++ s].
Proof.
  revert cur; induction s as [|c s IH]; intros cur H; simpl.
  - rewrite app_nil_r. reflexivity.
  - simpl in H. apply orb_false_iff in H. destruct H as [H1 H2].
    simpl in H1. rewrite H1, IH by exact H2.
    simpl. rewrite <- app_assoc. reflexivity.
Qed.

Lemma split_go_skip (sep : str) (k : nat) (cur s : str) :
  k <= length s -> split_go sep k cur s = split_go sep 0 cur (skipn k s).
Proof.
  revert k; induction s as [|c s IH]; intros k H; simpl in H.
  - assert (k = 0) by lia. subst. reflexivity.
  - destruct k; [reflexivity|]. simpl. apply IH. lia.
Qed.

(** A separator without a repeated code point cannot overlap a later
    occurrence of itself. *)
Lemma no_overlap (sep a b : str) :
  NoDup sep -> a <> [] -> startswith (a ++ sep ++ b) sep = true ->
  length sep <= length a.
Proof.
  intros ND Ha H. apply startswith_spec in H. destruct H as [r H].
  destruct (Nat.le_gt_cases (length sep) (length a)) as [L|L]; [exact L|].
  exfalso. destruct sep as [|x sep']; [simpl in L; lia|].
  assert (E : nth (length a) (a ++ (x :: sep') ++ b) 0%N
              = nth (length a) ((x :: sep') ++ r) 0%N) by (rewrite H; reflexivity).
  rewrite app_nth2, Nat.sub_diag in E by lia. simpl nth at 1 in E.
  rewrite app_nth1 in E by exact L.
  assert (Hz : 0 = length a).
  { apply (proj1 (NoDup_nth (x :: sep') 0%N) ND); [simpl; lia | exact L |].
    simpl nth at 1. exact E. }
  destruct a; [congruence | discriminate].
Qed.

Lemma split_go_last (sep : str) :
  NoDup sep -> sep <> [] ->
  forall (a cur : str) (skip : nat) (b : str),
    skip <= length a -> str_in sep b = false ->
    last (split_go sep skip cur (a ++ sep ++ b)) [] = b.
Proof.
  intros ND NE. induction a as [|c a IH]; intros cur skip b Hs Hb.
  - simpl in Hs. assert (skip = 0) by lia. subst skip.
    destruct sep as [|x sep']; [congruence|].
    cbn [app split_go].
    change (x :: sep' ++ b) with ((x :: sep') ++ b).
    rewrite startswith_app.
    rewrite last_cons_nonempty by apply split_go_nonempty.
    rewrite split_go_skip by (simpl; rewrite length_app; lia).
    replace (length (x :: sep') - 1) with (length sep') by (simpl; lia).
    rewrite skipn_app, Nat.sub_diag, skipn_all. simpl.
    rewrite split_go_absent by exact Hb. reflexivity.
  - cbn [app split_go]. destruct skip as [|k].
    + change (c :: a ++ sep ++ b) with ((c :: a) ++ sep ++ b).
      destruct (startswith ((c :: a) ++ sep ++ b) sep) eqn:E.
      * rewrite last_cons_nonempty by apply split_go_nonempty.
        apply IH; [|exact Hb].
        apply no_overlap in E; [simpl in E; lia | exact ND | discriminate].
      * apply IH; [lia | exact Hb].
    + apply IH; [simpl in Hs; lia | exact Hb].
Qed.

(** [s.split(sep)[-1]] is what follows the last occurrence of [sep]. *)
Lemma split_last (sep s a b : str) :
  NoDup sep -> sep <> [] ->
  s = a ++ sep ++ b -> str_in sep b = false ->
  last_piece (split s sep) = b.
Proof.
  intros ND NE -> Hb. unfold last_piece, split.
  apply split_go_last; [exact ND | exact NE | lia | exact Hb].
Qed.

(** A text that contains [sep] has a last occurrence of it. *)
Lemma last_occurrence (sep s : str) :
  sep <> [] -> str_in sep s = true ->
  exists a b, s = a ++ sep ++ b /\ str_in sep b = false.
Proof.
  intros NE. induction s as [|c s IH]; intros H.
  - simpl in H. rewrite orb_false_r in H. destruct sep; [congruence | discriminate].
  - destruct (str_in sep s) eqn:Hs.
    + destruct (IH eq_refl) as (a & b & -> & Hb).
      exists (c :: a), b. split; [reflexivity | exact Hb].
    + simpl in H. rewrite Hs, orb_false_r in H.
      apply startswith_spec in H. destruct H as [r H].
      exists [], r. split; [exact H|].
      destruct sep as [|x sep']; [congruence|].
      simpl in H. injection H as _ H.
      destruct (str_in (x :: sep') r) eqn:Hr; [|reflexivity].
      rewrite H, (str_in_app_r _ sep' _ Hr) in Hs. discriminate.
Qed.

Lemma NoDup_colon : NoDup colon /\ colon <> [].
Proof. split; [repeat constructor; simpl; tauto | discriminate]. Qed.

Lemma NoDup_title_marker : NoDup title_marker /\ title_marker <> [].
Proof.
  split; [|discriminate].
  unfold title_marker.
  repeat (constructor; [simpl; intros H; repeat (destruct H as [H|H]; [discriminate H|]); exact H|]).
  constructor.
Qed.

End SplitFacts.

(** ** Facts about the scan over the lines *)

Section ScanFacts.

Variable response_text : str.
Variable lines : list str.

Let body := loop_body response_text lines.
Let scan_from := scan_from response_text lines.


Lemma scan_from_cons (k : nat) (st : locals) (l : str) (ls : list str) :
  scan_from k st (l :: ls) = scan_from (S k) (body st (k, l)) ls.
Proof. reflexivity. Qed.

Lemma scan_from_app (k : nat) (st : locals) (a b : list str) :
  scan_from k st (a ++ b) = scan_from (k + length a) (scan_from k st a) b.
Proof.
  revert k st; induction a as [|x a IH]; intros k st.
  - simpl. rewrite Nat.add_0_r. reflexivity.
  - simpl app. rewrite !scan_from_cons, IH. simpl length.
    rewrite Nat.add_succ_r. reflexivity.
Qed.

(** A field that the body leaves alone on the lines failing [P] is not
    changed by a scan over such lines. *)
Lemma scan_from_preserve (A : Type) (field : locals -> A) (P : str -> bool) :
  (forall st i l, P l = false -> field (body st (i, l)) = field st) ->
  forall ls k st,
    (forall l, In l ls -> P l = false) ->
    field (scan_from k st ls) = field st.
Proof.
  intros Hbody. induction ls as [|x ls IH]; intros k st H; [reflexivity|].
  rewrite scan_from_cons, IH.
  - apply Hbody, H. left; reflexivity.
  - intros l Hl. apply H. right; exact Hl.
Qed.

(** The last line passing [P] decides the field. *)
Lemma scan_from_last (A : Type) (field : locals -> A) (P : str -> bool)
    (pre post : list str) (l : str) (st : locals) :
  (forall st i l, P l = false -> field (body st (i, l)) = field st) ->
  (forall l', In l' post -> P l' = false) ->
  field (scan_from 0 st (pre ++ l :: post))
  = field (body (scan_from 0 st pre) (length pre, l)).
Proof.
  intros Hbody Hpost.
  rewrite scan_from_app, scan_from_cons.
  apply scan_from_preserve with (P := P); assumption.
Qed.

End ScanFacts.

Section BodyFacts.

Variable response_text : str.
Variable lines : list str.
Variable st : locals.
Variable i : nat.
Variable l : str.

Ltac body_cases :=
  unfold loop_body, summary_line, quotes_line, sentiment_line;
  unfold title_line; intros H;
  destruct (str_in title_marker l); simpl in *;
    try reflexivity; try discriminate;
  destruct (str_in summary_marker l); simpl in *;
    try reflexivity; try discriminate;
  destruct (str_in quotes_marker l); simpl in *;
    try reflexivity; try discriminate;
  destruct (str_in sentiment_marker l || str_in sentiment_marker_nospace l);
    simpl in *; try reflexivity; try discriminate.

Lemma body_title_other :
  title_line l = false ->
  l_korean_title (loop_body response_text lines st (i, l)) = l_korean_title st.
Proof. body_cases. Qed.

Lemma body_title :
  title_line l = true ->
  l_korean_title (loop_body response_text lines st (i, l))
  = strip (last_piece (split l title_marker)).
Proof. body_cases. Qed.

Lemma body_summary_other :
  summary_line l = false ->
  l_summary (loop_body response_text lines st (i, l)) = l_summary st.
Proof. body_cases. Qed.

Lemma body_summary :
  summary_line l = true ->
  l_summary (loop_body response_text lines st (i, l))
  = match summary_loop (window lines i) [] with
    | [] => response_text
    | _ :: _ => join newline (summary_loop (window lines i) [])
    end.
Proof. body_cases. Qed.

Lemma body_quotes_other :
  quotes_line l = false ->
  l_key_quotes (loop_body response_text lines st (i, l)) = l_key_quotes st.
Proof. body_cases. Qed.

Lemma body_quotes :
  quotes_line l = true ->
  l_key_quotes (loop_body response_text lines st (i, l))
  = match quote_loop (window lines i) [] with
    | [] => []
    | _ :: _ => join newline (quote_loop (window lines i) [])
    end.
Proof. body_cases. Qed.

Lemma body_sentiment_other :
  sentiment_line l = false ->
  l_sentiment (loop_body response_text lines st (i, l)) = l_sentiment st.
Proof. body_cases. Qed.

Lemma body_sentiment :
  sentiment_line l = true ->
  l_sentiment (loop_body response_text lines st (i, l))
  = classify (sentiment_text l).
Proof. body_cases. Qed.

End BodyFacts.

(** ** The look-ahead window and the two inner loops *)

Section WindowFacts.

Lemma nth_window (d : str) (m : nat) :
  forall a b : list str,
    m <= length b ->
    map (fun j => nth j (a ++ b) d) (seq (length a) m) = firstn m b.
Proof.
  induction m as [|m IH]; intros a b H; [reflexivity|].
  destruct b as [|x b]; [simpl in H; lia|].
  simpl seq. simpl map. rewrite app_nth2, Nat.sub_diag by lia.
  simpl nth. simpl firstn. f_equal.
  specialize (IH (a ++ [x]) b).
  rewrite length_app, <- app_assoc in IH. simpl in IH.
  rewrite Nat.add_1_r in IH. apply IH. simpl in H; lia.
Qed.

(** The window of the line at index [length pre] is made of the three
    lines that follow it, or fewer at the end of the text. *)
Lemma window_after (pre : list str) (l : str) (post : list str) :
  window (pre ++ l :: post) (length pre) = firstn 3 post.
Proof.
  unfold window, range.
  assert (E : pre ++ l :: post = (pre ++ [l]) ++ post)
    by (rewrite <- app_assoc; reflexivity).
  assert (L : length pre + 1 = length (pre ++ [l]))
    by (rewrite length_app; reflexivity).
  replace (Nat.min (length pre + 4) (length (pre ++ l :: post)) - (length pre + 1))
    with (Nat.min 3 (length post))
    by (rewrite length_app; cbn [length]; lia).
  rewrite E, L, nth_window by lia.
  destruct (Nat.le_ge_cases 3 (length post)) as [H|H].
  - rewrite Nat.min_l by exact H. reflexivity.
  - rewrite Nat.min_r, firstn_all, firstn_all2 by exact H. reflexivity.
Qed.

Lemma summary_loop_filter (w acc : list str) :
  summary_loop w acc = acc ++ filter is_bullet (map strip w).
Proof.
  revert acc; induction w as [|x w IH]; intros acc;
    cbn [summary_loop map filter].
  - rewrite app_nil_r. reflexivity.
  - change (startswith (strip x) bullet_dot || startswith (strip x) bullet_dash)
      with (is_bullet (strip x)).
    destruct (is_bullet (strip x)); rewrite IH.
    + rewrite <- app_assoc. reflexivity.
    + reflexivity.
Qed.

Lemma quote_loop_filter (w acc : list str) :
  quote_loop w acc = acc ++ filter is_quote (before_break (map strip w)).
Proof.
  revert acc; induction w as [|x w IH]; intros acc;
    cbn [quote_loop map before_break].
  - rewrite app_nil_r. reflexivity.
  - replace (startswith (strip x) quote_gt || startswith (strip x) quote_dq
             || startswith (strip x) quote_dq)
      with (is_quote (strip x))
      by (unfold is_quote; destruct (startswith (strip x) quote_gt),
            (startswith (strip x) quote_dq); reflexivity).
    destruct (is_quote (strip x)) eqn:Q; cbn [negb andb filter].
    + rewrite Q, IH, <- app_assoc. reflexivity.
    + destruct (str_in sentiment_marker (strip x)); cbn [filter].
      * rewrite app_nil_r. reflexivity.
      * rewrite Q. apply IH.
Qed.

Lemma join_nonempty (x : str) (l : list str) :
  x <> [] -> join newline (x :: l) <> [].
Proof. destruct x; [congruence|]. destruct l; discriminate. Qed.

Lemma bullets_join_nonempty (w : list str) :
  filter is_bullet w <> [] -> join newline (filter is_bullet w) <> [].
Proof.
  destruct (filter is_bullet w) as [|x l] eqn:E; [congruence|]. intros _.
  apply join_nonempty.
  assert (H : In x (filter is_bullet w)) by (rewrite E; left; reflexivity).
  apply filter_In in H. destruct H as [_ H].
  destruct x; [discriminate H | discriminate].
Qed.

(** Among the lines, the last one that passes a test. *)
Lemma last_satisfying (P : str -> bool) (ls : list str) :
  (exists l, In l ls /\ P l = true) ->
  exists pre l post,
    ls = pre ++ l :: post /\ P l = true /\
    (forall l', In l' post -> P l' = false).
Proof.
  induction ls as [|x ls IH]; intros (l & Hin & Hl); [destruct Hin|].
  destruct (existsb P ls) eqn:E.
  - apply existsb_exists in E. destruct (IH E) as (pre & m & post & -> & Hm & Hpost).
    exists (x :: pre), m, post. split; [reflexivity | split; assumption].
  - exists [], x, ls. split; [reflexivity|].
    assert (Hnone : forall l', In l' ls -> P l' = false).
    { intros l' Hl'. destruct (P l') eqn:El'; [|reflexivity].
      assert (existsb P ls = true) by (apply existsb_exists; exists l'; auto).
      congruence. }
    split; [|exact Hnone].
    destruct Hin as [->|Hin]; [exact Hl|].
    rewrite (Hnone l Hin) in Hl. discriminate.
Qed.

End WindowFacts.

(** ** The returned record *)

Section ResultFacts.

Variable lower : str -> str.

(** When the generation call returns a text, the function returns the
    record built from it. *)
Lemma summarize_returned (response_text news_title : str) :
  summarize_with_gemini lower (inr response_text) news_title
  = inr (interpret lower response_text news_title).
Proof. reflexivity. Qed.

Lemma summarize_raised (e : exn) (news_title : str) :
  summarize_with_gemini lower (inl e) news_title
  = inr (degraded news_title e).
Proof. reflexivity. Qed.

Lemma scan_is_scan_from (response_text news_title : str) (lines : list str) :
  scan response_text news_title lines
  = scan_from response_text lines 0 (Locals news_title [] [] tok_neutral) lines.
Proof. reflexivity. Qed.

End ResultFacts.

(** ** Title, summary and quotations *)


Section Extraction.

Variable lower : str -> str.
Variables raw fallback : str.

(** C9, as the code has it. When no line of the response carries the
    translated-title marker, the returned title is the fallback title.
    Otherwise the returned title is the stripped remainder, after its
    last marker, of the last line that carries the marker. *)
Theorem korean_title_fallback_or_remainder :
  exists r,
    summarize_with_gemini lower (inr raw) fallback = inr r /\
    ((forall l, In l (lines_of raw) -> title_line l = false) ->
     korean_title r = fallback) /\
    (forall pre l post a b,
        lines_of raw = pre ++ l :: post ->
        title_line l = true ->
        (forall l', In l' post -> title_line l' = false) ->
        l = a ++ title_marker ++ b -> str_in title_marker b = false ->
        korean_title r = strip b).
Proof.
  eexists. split; [apply summarize_returned|].
  unfold interpret. cbn [korean_title]. rewrite scan_is_scan_from. split.
  - intros H.
    rewrite (scan_from_preserve raw (lines_of raw) _ l_korean_title title_line).
    + reflexivity.
    + intros st i l Hl. apply body_title_other; exact Hl.
    + exact H.
  - intros pre l post a b E Hl Hpost El Hb.
    rewrite E.
    rewrite (scan_from_last raw (pre ++ l :: post) _ l_korean_title title_line
               pre post l).
    + rewrite body_title by exact Hl. f_equal.
      apply (split_last title_marker l a b);
        [apply NoDup_title_marker | apply NoDup_title_marker | exact El | exact Hb].
    + intros st i x Hx. apply body_title_other; exact Hx.
    + exact Hpost.
Qed.

(** C7, as the code has it. The summary marker line is the last line that
    the scan takes as such: a line with the summary marker and without the
    title marker. The summary is the newline-join of the lines that begin
    with the bullet dot or a dash once stripped, stripped, among the three
    lines after that line; when there is no bullet line there, or no
    summary marker line at all, the summary is the entire raw text. *)
Theorem summary_bullets_or_raw_text :
  exists r,
    summarize_with_gemini lower (inr raw) fallback = inr r /\
    ((forall l, In l (lines_of raw) -> summary_line l = false) ->
     summary r = raw) /\
    (forall pre l post,
        lines_of raw = pre ++ l :: post ->
        summary_line l = true ->
        (forall l', In l' post -> summary_line l' = false) ->
        (bullets_after post <> [] ->
         summary r = join newline (bullets_after post)) /\
        (bullets_after post = [] -> summary r = raw)).
Proof.
  eexists. split; [apply summarize_returned|].
  unfold interpret. cbn [summary]. rewrite scan_is_scan_from. split.
  - intros H.
    rewrite (scan_from_preserve raw (lines_of raw) _ l_summary summary_line).
    + reflexivity.
    + intros st i l Hl. apply body_summary_other; exact Hl.
    + exact H.
  - intros pre l post E Hl Hpost.
    rewrite E.
    rewrite (scan_from_last raw (pre ++ l :: post) _ l_summary summary_line
               pre post l);
      [| intros st i x Hx; apply body_summary_other; exact Hx | exact Hpost].
    rewrite body_summary by exact Hl.
    rewrite window_after, summary_loop_filter. cbn [app].
    fold (bullets_after post). split.
    + intros NE. pose proof (bullets_join_nonempty _ NE) as J.
      fold (bullets_after post) in J.
      destruct (bullets_after post) as [|x bl]; [congruence|].
      destruct (join newline (x :: bl)); [congruence | reflexivity].
    + intros ->. destruct raw; reflexivity.
Qed.


End Extraction.

(** ** Sentiment resolution *)


Arguments str_in : simpl never.
Arguments startswith : simpl never.
Arguments strip : simpl never.
Arguments split : simpl never.
Arguments rfind : simpl never.

Section SentimentFacts.

Variable lower : str -> str.

Lemma classify_label (t : str) : is_label (classify t).
Proof.
  unfold classify, is_label.
  destruct (str_in tok_positive t); [auto|].
  destruct (str_in tok_negative t); auto.
Qed.

Lemma rescan_label (lines : list str) (s0 : str) :
  is_label s0 -> is_label (rescan lower lines s0).
Proof.
  intros H. induction lines as [|x lines IH]; [exact H|].
  cbn [rescan].
  destruct (str_in sentiment_word x || str_in sentiment_word_en (lower x));
    [|exact IH].
  destruct (str_in tok_positive x); [left; reflexivity|].
  destruct (str_in tok_negative x); [right; left; reflexivity | exact IH].
Qed.

Lemma last_mention_label (response_text s0 : str) :
  is_label s0 -> is_label (last_mention response_text s0).
Proof.
  intros H. unfold last_mention.
  destruct (_ && _); [left; reflexivity|].
  destruct (_ && _); [right; left; reflexivity | exact H].
Qed.

Lemma resolve_label (response_text : str) (lines : list str) (s0 : str) :
  is_label s0 -> is_label (resolve lower response_text lines s0).
Proof.
  intros H. unfold resolve.
  destruct (str_eqb s0 tok_neutral); [|exact H].
  destruct (str_eqb (rescan lower lines s0) tok_neutral).
  - apply last_mention_label, rescan_label, H.
  - apply rescan_label, H.
Qed.

Lemma body_label (response_text : str) (lines : list str) (st : locals)
    (il : nat * str) :
  is_label (l_sentiment st) ->
  is_label (l_sentiment (loop_body response_text lines st il)).
Proof.
  intros H. destruct il as [i l].
  destruct (sentiment_line l) eqn:E.
  - rewrite body_sentiment by exact E. apply classify_label.
  - rewrite body_sentiment_other by exact E. exact H.
Qed.

Lemma scan_label (response_text news_title : str) (lines : list str) :
  is_label (l_sentiment (scan response_text news_title lines)).
Proof.
  unfold scan.
  assert (G : forall xs st, is_label (l_sentiment st) ->
              is_label (l_sentiment
                          (fold_left (loop_body response_text lines) xs st))).
  { induction xs as [|x xs IH]; intros st H; [exact H|].
    apply IH, body_label, H. }
  apply G. right; right; reflexivity.
Qed.


Lemma resolve_neutral (response_text : str) (lines : list str) :
  resolve lower response_text lines tok_neutral
  = if str_eqb (rescan lower lines tok_neutral) tok_neutral
    then last_mention response_text (rescan lower lines tok_neutral)
    else rescan lower lines tok_neutral.
Proof. reflexivity. Qed.

Lemma rescan_none (lines : list str) (s0 : str) :
  (forall x, In x lines -> mentions_sentiment lower x && names_token x = false) ->
  rescan lower lines s0 = s0.
Proof.
  induction lines as [|x lines IH]; intros H; [reflexivity|].
  cbn [rescan].
  pose proof (H x (or_introl eq_refl)) as Hx.
  unfold mentions_sentiment, names_token in Hx.
  destruct (str_in sentiment_word x || str_in sentiment_word_en (lower x));
    [|apply IH; intros y Hy; apply H; right; exact Hy].
  cbn [andb] in Hx. apply orb_false_iff in Hx. destruct Hx as [-> ->].
  apply IH; intros y Hy; apply H; right; exact Hy.
Qed.


(** The last sentiment marker line gives the first classification. *)
Lemma scan_sentiment_last (response_text news_title : str)
    (pre : list str) (l : str) (post : list str) :
  sentiment_line l = true ->
  (forall l', In l' post -> sentiment_line l' = false) ->
  l_sentiment (scan response_text news_title (pre ++ l :: post))
  = classify (sentiment_text l).
Proof.
  intros Hl Hpost. rewrite scan_is_scan_from.
  rewrite (scan_from_last response_text (pre ++ l :: post) _ l_sentiment
             sentiment_line pre post l);
    [| intros st i x Hx; apply body_sentiment_other; exact Hx | exact Hpost].
  apply body_sentiment; exact Hl.
Qed.

Lemma scan_sentiment_none (response_text news_title : str) (lines : list str) :
  (forall l, In l lines -> sentiment_line l = false) ->
  l_sentiment (scan response_text news_title lines) = tok_neutral.
Proof.
  intros H. rewrite scan_is_scan_from.
  rewrite (scan_from_preserve response_text lines _ l_sentiment sentiment_line);
    [reflexivity | intros st i x Hx; apply body_sentiment_other; exact Hx | exact H].
Qed.

(** A sentiment marker line mentions the sentiment word. *)
Lemma sentiment_line_mentions (l : str) :
  sentiment_line l = true -> mentions_sentiment lower l = true.
Proof.
  unfold sentiment_line, mentions_sentiment. intros H.
  apply andb_true_iff in H. destruct H as [_ H].
  apply orb_true_iff in H. apply orb_true_iff. left.
  destruct H as [H|H].
  - apply (str_in_part [] sentiment_word [32; 48516; 49437]%N). exact H.
  - apply (str_in_part [] sentiment_word [48516; 49437]%N). exact H.
Qed.



(** The text that line 305 extracts is a part of the line. *)
Lemma sentiment_text_positive (l : str) :
  str_in tok_positive (sentiment_text l) = true -> str_in tok_positive l = true.
Proof.
  unfold sentiment_text. destruct (str_in colon l) eqn:C; [|auto].
  destruct (last_occurrence colon l (proj2 NoDup_colon) C) as (a & b & E & Hb).
  rewrite (split_last colon l a b (proj1 NoDup_colon) (proj2 NoDup_colon) E Hb).
  rewrite strip_positive, E. intros H.
  apply str_in_app_r, str_in_app_r. exact H.
Qed.

Lemma sentiment_text_negative (l : str) :
  str_in tok_negative (sentiment_text l) = true -> str_in tok_negative l = true.
Proof.
  unfold sentiment_text. destruct (str_in colon l) eqn:C; [|auto].
  destruct (last_occurrence colon l (proj2 NoDup_colon) C) as (a & b & E & Hb).
  rewrite (split_last colon l a b (proj1 NoDup_colon) (proj2 NoDup_colon) E Hb).
  rewrite strip_negative, E. intros H.
  apply str_in_app_r, str_in_app_r. exact H.
Qed.

(** When no line both mentions the sentiment and names a token, the scan
    leaves the sentiment neutral. *)
Lemma scan_sentiment_neutral (response_text news_title : str) (lines : list str) :
  (forall x, In x lines -> mentions_sentiment lower x && names_token x = false) ->
  l_sentiment (scan response_text news_title lines) = tok_neutral.
Proof.
  intros H. destruct (existsb sentiment_line lines) eqn:X.
  - apply existsb_exists, last_satisfying in X.
    destruct X as (pre & l & post & -> & Hl & Hpost).
    rewrite scan_sentiment_last by assumption.
    assert (Hx : mentions_sentiment lower l && names_token l = false)
      by (apply H, in_or_app; right; left; reflexivity).
    rewrite (sentiment_line_mentions l Hl) in Hx. cbn [andb] in Hx.
    unfold names_token in Hx. apply orb_false_iff in Hx. destruct Hx as [Hp Hn].
    unfold classify.
    destruct (str_in tok_positive (sentiment_text l)) eqn:P.
    { apply sentiment_text_positive in P. congruence. }
    destruct (str_in tok_negative (sentiment_text l)) eqn:N.
    { apply sentiment_text_negative in N. congruence. }
    reflexivity.
  - apply scan_sentiment_none. intros l Hl.
    destruct (sentiment_line l) eqn:E; [|reflexivity].
    assert (existsb sentiment_line lines = true)
      by (apply existsb_exists; exists l; auto).
    congruence.
Qed.

End SentimentFacts.



(** ** The claims on the sentiment and on the returned record *)

Section SentimentClaims.

Variable lower : str -> str.

(** C2. Whatever the generation call yields (a text, well-formed or not,
    or an exception) and whatever the fallback title, the function returns
    a record whose sentiment is one of the three labels. *)
Theorem sentiment_always_a_label (generate : exn + str) (fallback : str) :
  exists r,
    summarize_with_gemini lower generate fallback = inr r /\
    is_label (sentiment r).
Proof.
  destruct generate as [e|raw].
  - eexists. split; [apply summarize_raised|]. right; right; reflexivity.
  - eexists. split; [apply summarize_returned|].
    unfold interpret. cbn [sentiment]. apply resolve_label, scan_label.
Qed.

(** C5. The function returns a record on every outcome of the generation
    call; when the call raises, the summary of the record is the failure
    placeholder followed by the message of the exception, and the
    sentiment is neutral. *)
Theorem generation_error_degrades (e : exn) (news_title : str) :
  (forall generate, exists r,
      summarize_with_gemini lower generate news_title = inr r) /\
  exists r,
    summarize_with_gemini lower (inl e) news_title = inr r /\
    summary r = failure_prefix ++ e /\
    sentiment r = tok_neutral.
Proof.
  split.
  - intros [e'|raw]; eexists; [apply summarize_raised | apply summarize_returned].
  - eexists. split; [apply summarize_raised|]. split; reflexivity.
Qed.

(** C6. The raw response of the returned record is the text that the
    generation call returned, unchanged (empty or not). *)
Theorem raw_response_verbatim (raw fallback : str) :
  exists r,
    summarize_with_gemini lower (inr raw) fallback = inr r /\
    raw_response r = raw.
Proof. eexists. split; [apply summarize_returned | reflexivity]. Qed.



(** C3. When no line of the response is labeled with a sentiment (no line
    both mentions the sentiment label and names a token, so that the first
    two tiers leave the sentiment neutral), the last mention decides: the
    sentiment is positive when the positive token occurs after every
    occurrence of the negative one, negative when the negative token
    occurs after every occurrence of the positive one, and neutral when
    neither token occurs in the raw text. *)
Theorem last_mention_wins (raw fallback : str) :
  (forall l, In l (lines_of raw) ->
             mentions_sentiment lower l && names_token l = false) ->
  exists r,
    summarize_with_gemini lower (inr raw) fallback = inr r /\
    (forall p, occurs_at tok_positive raw p ->
               (forall q, occurs_at tok_negative raw q -> (q < p)%Z) ->
               sentiment r = tok_positive) /\
    (forall q, occurs_at tok_negative raw q ->
               (forall p, occurs_at tok_positive raw p -> (p < q)%Z) ->
               sentiment r = tok_negative) /\
    (str_in tok_positive raw = false -> str_in tok_negative raw = false ->
     sentiment r = tok_neutral).
Proof.
  intros H. eexists. split; [apply summarize_returned|].
  unfold interpret. cbn [sentiment].
  rewrite (scan_sentiment_neutral lower raw fallback _ H).
  rewrite resolve_neutral, (rescan_none lower _ tok_neutral H).
  rewrite str_eqb_refl. unfold last_mention.
  pose proof (rfind_lower_bound raw tok_positive) as Bp.
  pose proof (rfind_lower_bound raw tok_negative) as Bn.
  pose proof (rfind_occurs raw tok_positive) as Op.
  pose proof (rfind_occurs raw tok_negative) as On.
  set (lp := rfind raw tok_positive) in *.
  set (ln := rfind raw tok_negative) in *.
  split; [|split].
  - intros p Hp Hq.
    assert (p <= lp)%Z by (apply rfind_upper_bound; exact Hp).
    assert (0 <= p)%Z by (destruct Hp as (x & y & _ & <-); lia).
    assert (ln < lp)%Z.
    { destruct (Z_lt_le_dec ln 0) as [L|L]; [lia|].
      specialize (Hq ln (On L)). lia. }
    destruct (Z.gtb_spec lp ln); [|lia].
    destruct (Z.eqb_spec lp (-1)); [lia | reflexivity].
  - intros q Hq Hp.
    assert (q <= ln)%Z by (apply rfind_upper_bound; exact Hq).
    assert (0 <= q)%Z by (destruct Hq as (x & y & _ & <-); lia).
    assert (lp < ln)%Z.
    { destruct (Z_lt_le_dec lp 0) as [L|L]; [lia|].
      specialize (Hp lp (Op L)). lia. }
    destruct (Z.gtb_spec lp ln); [lia|]. cbn [andb].
    destruct (Z.gtb_spec ln lp); [|lia].
    destruct (Z.eqb_spec ln (-1)); [lia | reflexivity].
  - intros Hp Hn. subst lp ln.
    rewrite (rfind_absent raw tok_positive Hp), (rfind_absent raw tok_negative Hn).
    reflexivity.
Qed.


End SentimentClaims.



Lemma last_mention_wins_witness :
  exists r,
    summarize_with_gemini ascii_lower (inr prose_text) some_title = inr r /\
    sentiment r = tok_positive.
Proof.
  destruct (last_mention_wins ascii_lower prose_text some_title)
    as (r & E & P & _).
  - intros l Hl. vm_compute in Hl. destruct Hl as [<-|[]].
    vm_compute; reflexivity.
  - exists r. split; [exact E|]. apply (P 11%Z).
    + exists (firstn 11 prose_text), []. split; vm_compute; reflexivity.
    + intros q Hq. apply rfind_upper_bound in Hq.
      assert (R : rfind prose_text tok_negative = 0%Z) by (vm_compute; reflexivity).
      rewrite R in Hq. lia.
Defined.


(** ** Inputs on which C1 and C4 fail as they are written *)



(** ** Witnesses of C7, C8 and C9 on the formatted response *)

Lemma korean_title_fallback_or_remainder_witness :
  exists r,
    summarize_with_gemini ascii_lower (inr scenario_text) some_title = inr r /\
    korean_title r = test_title.
Proof.
  destruct (korean_title_fallback_or_remainder ascii_lower scenario_text
              some_title) as (r & E & _ & H).
  exists r. split; [exact E|].
  rewrite (H [] title_row [positive_row] title_row_prefix title_row_rest).
  - vm_compute; reflexivity.
  - vm_compute; reflexivity.
  - vm_compute; reflexivity.
  - intros l' [<-|[]]. vm_compute; reflexivity.
  - vm_compute; reflexivity.
  - vm_compute; reflexivity.
Defined.

Lemma summary_bullets_or_raw_text_witness :
  exists r,
    summarize_with_gemini ascii_lower (inr full_response) some_title = inr r /\
    summary r = expected_summary.
Proof.
  destruct (summary_bullets_or_raw_text ascii_lower full_response some_title)
    as (r & E & _ & H).
  exists r. split; [exact E|].
  destruct (H [title_row] summary_row
              [bullet_one; bullet_two; bullet_three; quotes_row; quote_one;
               quote_two; positive_row]) as [B _].
  - vm_compute; reflexivity.
  - vm_compute; reflexivity.
  - intros l' Hl. repeat (destruct Hl as [<-|Hl]; [vm_compute; reflexivity|]).
    destruct Hl.
  - rewrite B; [vm_compute; reflexivity | vm_compute; discriminate].
Defined.


(** ** Inputs on which C7, C8, C9 and C10 fail as they are written *)

(** C7 as written: a line holds the summary marker and the two lines
    after it begin with a bullet, yet the summary is the entire raw text,
    because the line also holds the title marker and the scan gives it to
    the title branch. *)
Lemma summary_marker_on_title_line :
  lines_of both_markers_text = [both_markers_row; bullet_one; bullet_three] /\
  str_in summary_marker both_markers_row = true /\
  startswith bullet_one bullet_dot = true /\
  startswith bullet_three bullet_dot = true /\
  exists r,
    summarize_with_gemini ascii_lower (inr both_markers_text) some_title = inr r /\
    summary r = both_markers_text /\
    summary r <> bullet_one ++ newline ++ bullet_three.
Proof.
  repeat (split; [vm_compute; reflexivity|]).
  eexists. split; [vm_compute; reflexivity|].
  split; [reflexivity | vm_compute; discriminate].
Qed.


(** C9 as written: the first line holds the title marker and its stripped
    remainder is [A], yet the returned title is [B], from the later
    marker line. *)
Lemma earlier_title_row_overridden :
  lines_of two_titles_text = [title_a_row; title_b_row] /\
  title_line title_a_row = true /\
  title_a_row = title_marker ++ title_a_rest /\
  strip title_a_rest = title_a /\
  exists r,
    summarize_with_gemini ascii_lower (inr two_titles_text) some_title = inr r /\
    korean_title r = title_b /\ korean_title r <> title_a.
Proof.
  repeat (split; [vm_compute; reflexivity|]).
  eexists. split; [vm_compute; reflexivity|].
  split; [reflexivity | discriminate].
Qed.


(** * The page *)

(** ** The badge of a result *)

Section Badge.

Variable lower : str -> str.

(** X1. Whatever the generation call yields, the badge shown for the
    returned record is a colour dot, a space and the sentiment of the
    record, and its CSS class is the one of that sentiment. *)
Theorem badge_names_the_sentiment (generate : exn + str) (fallback : str) :
  exists r,
    summarize_with_gemini lower generate fallback = inr r /\
    (exists dot,
        fst (get_sentiment_emoji (sentiment r)) = dot :: 32%N :: sentiment r) /\
    (snd (get_sentiment_emoji (sentiment r)) = css_positive <->
     sentiment r = tok_positive) /\
    (snd (get_sentiment_emoji (sentiment r)) = css_negative <->
     sentiment r = tok_negative) /\
    (snd (get_sentiment_emoji (sentiment r)) = css_neutral <->
     sentiment r = tok_neutral).
Proof.
  assert (G : forall s, is_label s ->
    (exists dot, fst (get_sentiment_emoji s) = dot :: 32%N :: s) /\
    (snd (get_sentiment_emoji s) = css_positive <-> s = tok_positive) /\
    (snd (get_sentiment_emoji s) = css_negative <-> s = tok_negative) /\
    (snd (get_sentiment_emoji s) = css_neutral <-> s = tok_neutral)).
  { intros s [-> | [-> | ->]];
      (split; [eexists; vm_compute; reflexivity|]);
      repeat split; intros H; try reflexivity; try discriminate H;
        vm_compute in H; discriminate H. }
  destruct generate as [e|raw].
  - eexists. split; [apply summarize_raised|].
    apply G. right; right; reflexivity.
  - eexists. split; [apply summarize_returned|].
    apply G. unfold interpret. cbn [sentiment].
    apply resolve_label, scan_label.
Qed.

End Badge.

(** ** The pieces of [split] *)

Section SplitPieces.

Lemma join_cons (sep x : str) (l : list str) :
  l <> [] -> join sep (x :: l) = x ++ sep ++ join sep l.
Proof. destruct l; [congruence | reflexivity]. Qed.

(** Joining the pieces with the separator gives the text back. *)
Lemma join_split_go (sep : str) :
  sep <> [] ->
  forall (n : nat) (s cur : str),
    length s <= n -> join sep (split_go sep 0 cur s) = rev cur ++ s.
Proof.
  intros NE. induction n as [|n IH]; intros s cur L.
  - destruct s; [|simpl in L; lia]. simpl. rewrite app_nil_r. reflexivity.
  - destruct s as [|c s]; [simpl; rewrite app_nil_r; reflexivity|].
    cbn [split_go]. destruct (startswith (c :: s) sep) eqn:E.
    + apply startswith_spec in E. destruct E as [r E].
      destruct sep as [|x sep']; [congruence|].
      simpl in E. injection E as -> ->.
      rewrite join_cons by apply split_go_nonempty.
      rewrite split_go_skip by (simpl; rewrite length_app; lia).
      replace (length (x :: sep') - 1) with (length sep') by (simpl; lia).
      rewrite skipn_app, Nat.sub_diag, skipn_all. cbn [skipn app].
      rewrite IH by (simpl in L; rewrite length_app in L; lia).
      reflexivity.
    + rewrite IH by (simpl in L; lia).
      simpl. rewrite <- app_assoc. reflexivity.
Qed.

Lemma join_split (s sep : str) : sep <> [] -> join sep (split s sep) = s.
Proof.
  intros NE. unfold split.
  rewrite (join_split_go sep NE (length s) s [] (le_n _)). reflexivity.
Qed.

Lemma startswith_char (c x : char) (s : str) :
  startswith (x :: s) [c] = char_eqb c x.
Proof. cbn. apply andb_true_r. Qed.

(** With a separator of one code point, no piece contains it and there is
    one piece more than there are separators. *)
Lemma split_go_char_free (c : char) (s cur : str) :
  ~ In c cur ->
  forall piece, In piece (split_go [c] 0 cur s) -> ~ In c piece.
Proof.
  revert cur; induction s as [|x s IH]; intros cur Hc piece Hp.
  - simpl in Hp. destruct Hp as [<-|[]]. rewrite <- in_rev. exact Hc.
  - cbn [split_go] in Hp. rewrite startswith_char in Hp.
    destruct (char_eqb c x) eqn:E; cbn [length Nat.sub] in Hp.
    + destruct Hp as [<-|Hp]; [rewrite <- in_rev; exact Hc|].
      apply (IH []); [intros [] | exact Hp].
    + apply (IH (x :: cur)); [|exact Hp].
      intros [->|H]; [|exact (Hc H)].
      assert (char_eqb c c = true) by (apply char_eqb_eq; reflexivity).
      congruence.
Qed.

Lemma split_go_char_length (c : char) (s cur : str) :
  length (split_go [c] 0 cur s) = S (count_occ N.eq_dec s c).
Proof.
  revert cur; induction s as [|x s IH]; intros cur; [reflexivity|].
  cbn [split_go count_occ]. rewrite startswith_char.
  destruct (N.eq_dec x c) as [->|NE].
  - assert (E : char_eqb c c = true) by (apply char_eqb_eq; reflexivity).
    rewrite E. cbn [length Nat.sub]. rewrite IH. reflexivity.
  - destruct (char_eqb c x) eqn:E.
    + apply char_eqb_eq in E. congruence.
    + apply IH.
Qed.

End SplitPieces.

(** X2. The lines that the scan reads are the newline-separated pieces of
    the stripped response: joined with newlines they give the stripped
    response back, and no line contains a newline. *)
Theorem lines_partition_the_response (raw : str) :
  join newline (lines_of raw) = strip raw /\
  (forall l, In l (lines_of raw) -> ~ In 10%N l).
Proof.
  split.
  - apply join_split. discriminate.
  - intros l Hl. unfold lines_of, split in Hl.
    apply (split_go_char_free 10%N (strip raw) []) with (piece := l);
      [intros [] | exact Hl].
Qed.

(** ** Removing the duplicate titles *)

Section UniqueFacts.

Variable news : Type.
Variable title : news -> str.

Lemma mem_In (t : str) (l : list str) :
  existsb (str_eqb t) l = true <-> In t l.
Proof.
  rewrite existsb_exists. split.
  - intros (x & Hx & E). apply str_eqb_eq in E. subst. exact Hx.
  - intros H. exists t. split; [exact H | apply str_eqb_refl].
Qed.

Lemma mem_not_In (t : str) (l : list str) :
  existsb (str_eqb t) l = false <-> ~ In t l.
Proof.
  rewrite <- mem_In. destruct (existsb (str_eqb t) l); split; congruence.
Qed.

Lemma unique_loop_keep_new (l : list news) (seen : list str) (acc : list news) :
  unique_loop title l seen acc = acc ++ keep_new title seen l.
Proof.
  revert seen acc; induction l as [|n l IH]; intros seen acc; cbn [unique_loop keep_new].
  - rewrite app_nil_r. reflexivity.
  - destruct (existsb (str_eqb (title n)) seen); cbn [negb].
    + apply IH.
    + rewrite IH, <- app_assoc. reflexivity.
Qed.

Lemma unique_keep_new (l : list news) : unique title l = keep_new title [] l.
Proof. unfold unique. apply unique_loop_keep_new. Qed.

Lemma keep_new_In (seen : list str) (l : list news) (m : news) :
  In m (keep_new title seen l) -> In m l /\ ~ In (title m) seen.
Proof.
  revert seen; induction l as [|n l IH]; intros seen H; [destruct H|].
  cbn [keep_new] in H. destruct (existsb (str_eqb (title n)) seen) eqn:E.
  - destruct (IH _ H) as [H1 H2]. split; [right; exact H1 | exact H2].
  - destruct H as [<-|H].
    + split; [left; reflexivity | apply mem_not_In; exact E].
    + destruct (IH _ H) as [H1 H2]. split; [right; exact H1|].
      intros H3. apply H2. right; exact H3.
Qed.

Lemma keep_new_NoDup (seen : list str) (l : list news) :
  NoDup (map title (keep_new title seen l)).
Proof.
  revert seen; induction l as [|n l IH]; intros seen; cbn [keep_new].
  - constructor.
  - destruct (existsb (str_eqb (title n)) seen); [apply IH|].
    cbn [map]. constructor; [|apply IH].
    intros H. apply in_map_iff in H. destruct H as (m & E & Hm).
    apply keep_new_In in Hm. destruct Hm as [_ Hm].
    apply Hm. left. symmetry; exact E.
Qed.

Lemma keep_new_covers (seen : list str) (l : list news) (n : news) :
  In n l -> In (title n) seen \/ In (title n) (map title (keep_new title seen l)).
Proof.
  revert seen; induction l as [|x l IH]; intros seen H; [destruct H|].
  cbn [keep_new]. destruct (existsb (str_eqb (title x)) seen) eqn:E.
  - destruct H as [->|H]; [left; apply mem_In; exact E | apply IH; exact H].
  - destruct H as [->|H]; [right; left; reflexivity|].
    destruct (IH (title x :: seen) H) as [[<-|H1]|H1].
    + right. left. reflexivity.
    + left. exact H1.
    + right. right. exact H1.
Qed.

Lemma keep_new_snoc (seen : list str) (l : list news) (n : news) :
  keep_new title seen (l ++ [n])
  = keep_new title seen l
    ++ (if existsb (str_eqb (title n)) (seen ++ map title l) then [] else [n]).
Proof.
  revert seen; induction l as [|x l IH]; intros seen.
  - cbn [app keep_new map]. rewrite app_nil_r.
    destruct (existsb (str_eqb (title n)) seen); reflexivity.
  - cbn [app keep_new map].
    assert (M : existsb (str_eqb (title n)) (seen ++ title x :: map title l)
                = existsb (str_eqb (title n)) ((title x :: seen) ++ map title l)).
    { apply eq_iff_eq_true. rewrite !mem_In, !in_app_iff. simpl. tauto. }
    destruct (existsb (str_eqb (title x)) seen) eqn:E.
    + rewrite IH. f_equal. apply mem_In in E.
      assert (M' : existsb (str_eqb (title n)) (seen ++ title x :: map title l)
                   = existsb (str_eqb (title n)) (seen ++ map title l)).
      { apply eq_iff_eq_true. rewrite !mem_In, !in_app_iff. simpl.
        split; [intros [H|[<-|H]]; auto | intros [H|H]; auto]. }
      rewrite M'. reflexivity.
    + rewrite IH, M. reflexivity.
Qed.

Lemma keep_new_fixed (seen : list str) (l : list news) :
  NoDup (map title l) -> (forall n, In n l -> ~ In (title n) seen) ->
  keep_new title seen l = l.
Proof.
  revert seen; induction l as [|x l IH]; intros seen ND H; [reflexivity|].
  cbn [keep_new]. cbn [map] in ND. inversion ND as [|? ? Hx ND']; subst.
  assert (E : existsb (str_eqb (title x)) seen = false)
    by (apply mem_not_In, H; left; reflexivity).
  rewrite E. f_equal. apply IH; [exact ND'|].
  intros n Hn [E'|Hs].
  - apply Hx. rewrite E'. apply in_map; exact Hn.
  - apply (H n); [right; exact Hn | exact Hs].
Qed.

(** X3. After the removal of duplicates no two cards have the same title,
    every card is a collected news item, and every collected title still
    has its card. *)
Theorem unique_one_card_per_title (all_news0 : list news) :
  NoDup (map title (unique title all_news0)) /\
  (forall m, In m (unique title all_news0) -> In m all_news0) /\
  (forall t, In t (map title all_news0) ->
             In t (map title (unique title all_news0))).
Proof.
  rewrite unique_keep_new. split; [apply keep_new_NoDup|]. split.
  - intros m H. apply keep_new_In in H. tauto.
  - intros t H. apply in_map_iff in H. destruct H as (n & <- & Hn).
    destruct (keep_new_covers [] _ _ Hn) as [[]|H]. exact H.
Qed.

(** X4. The removal keeps the order and the first item of each title: an
    item added at the end of the collected list is kept exactly when no
    earlier item has its title, and the cards before it are unchanged. *)
Theorem unique_keeps_first_occurrences (all_news0 : list news) (n : news) :
  unique title (all_news0 ++ [n])
  = unique title all_news0
    ++ (if existsb (str_eqb (title n)) (map title all_news0) then [] else [n]).
Proof. rewrite !unique_keep_new. apply keep_new_snoc. Qed.

Lemma unique_idempotent (l : list news) :
  unique title (unique title l) = unique title l.
Proof.
  rewrite (unique_keep_new (unique title l)).
  apply keep_new_fixed; [|intros n _ []].
  rewrite unique_keep_new. apply keep_new_NoDup.
Qed.

(** X5. Removing the duplicates twice changes nothing more, and a list
    whose titles are pairwise distinct is returned as it is. *)
Theorem unique_is_idempotent (all_news0 : list news) :
  unique title (unique title all_news0) = unique title all_news0 /\
  (NoDup (map title all_news0) -> unique title all_news0 = all_news0).
Proof.
  split; [apply unique_idempotent|].
  intros ND. rewrite unique_keep_new.
  apply keep_new_fixed; [exact ND | intros n _ []].
Qed.

(** Items whose titles all occur before them add no card. *)
Lemma unique_absorbs (l1 l2 : list news) :
  (forall n, In n l2 -> In (title n) (map title l1)) ->
  unique title (l1 ++ l2) = unique title l1.
Proof.
  induction l2 as [|n l2 IH] using rev_ind; intros H.
  - rewrite app_nil_r. reflexivity.
  - rewrite app_assoc, !unique_keep_new, keep_new_snoc, <- !unique_keep_new.
    rewrite IH by (intros m Hm; apply H, in_or_app; left; exact Hm).
    assert (E : existsb (str_eqb (title n)) ([] ++ map title (l1 ++ l2)) = true).
    { apply mem_In. cbn [app]. rewrite map_app. apply in_or_app. left.
      apply H, in_or_app. right. left. reflexivity. }
    rewrite E, app_nil_r. reflexivity.
Qed.

End UniqueFacts.

(** ** Collecting the news through the cache *)

Section CollectFacts.

Variable news : Type.
Variable title : news -> str.
Variable fetch_news : str -> list news.

Lemma dict_get_set_same (d : news_dict news) (k : str) (v : list news) :
  dict_get (dict_set d k v) k = Some v.
Proof.
  induction d as [|[k' v'] d IH]; cbn [dict_set dict_get].
  - rewrite str_eqb_refl. reflexivity.
  - destruct (str_eqb k k') eqn:E; cbn [dict_get]; rewrite E; [reflexivity | exact IH].
Qed.

Lemma dict_get_set_other (d : news_dict news) (k k0 : str) (v : list news) :
  k0 <> k -> dict_get (dict_set d k v) k0 = dict_get d k0.
Proof.
  intros NE. induction d as [|[k' v'] d IH]; cbn [dict_set dict_get].
  - destruct (str_eqb k0 k) eqn:E; [apply str_eqb_eq in E; congruence | reflexivity].
  - destruct (str_eqb k k') eqn:E; cbn [dict_get].
    + apply str_eqb_eq in E. subst k'.
      destruct (str_eqb k0 k) eqn:E0; [apply str_eqb_eq in E0; congruence | reflexivity].
    + rewrite IH. reflexivity.
Qed.

(** One turn of the loop: what it adds to [all_news], that the cache then
    holds the ticker, and that it fetches exactly when the cache misses. *)
Lemma collect_body_spec (st : collect_state news) (t : str) :
  let st' := collect_body fetch_news st t in
  all_news st' = all_news st ++ cached_or_fetched fetch_news (news_data st) t /\
  (forall k, cached_or_fetched fetch_news (news_data st') k
             = cached_or_fetched fetch_news (news_data st) k) /\
  (forall k, dict_get (news_data st') k = None <->
             dict_get (news_data st) k = None /\ k <> t) /\
  fetched st' = fetched st
                ++ (match dict_get (news_data st) t with
                    | None => [t]
                    | Some _ => []
                    end).
Proof.
  unfold collect_body, cached_or_fetched.
  destruct (dict_get (news_data st) t) as [l|] eqn:E;
    cbn [news_data fetched all_news].
  - rewrite E, app_nil_r. split; [reflexivity|]. split; [reflexivity|].
    split; [|reflexivity].
    intros k. split; [|tauto].
    intros H. split; [exact H | intros ->; congruence].
  - rewrite dict_get_set_same. split; [reflexivity|].
    assert (O : forall k, k <> t ->
              dict_get (dict_set (news_data st) t (fetch_news t)) k
              = dict_get (news_data st) k)
      by (intros k NE; apply dict_get_set_other; exact NE).
    split; [|split; [|reflexivity]].
    + intros k. destruct (str_eqb k t) eqn:Ek.
      * apply str_eqb_eq in Ek. subst k. rewrite dict_get_set_same, E. reflexivity.
      * rewrite O; [reflexivity|].
        intros ->. rewrite str_eqb_refl in Ek. discriminate.
    + intros k. split.
      * intros H. destruct (str_eqb k t) eqn:Ek.
        -- apply str_eqb_eq in Ek. subst k.
           rewrite dict_get_set_same in H. discriminate.
        -- assert (NE : k <> t)
             by (intros ->; rewrite str_eqb_refl in Ek; discriminate).
           rewrite O in H by exact NE. split; assumption.
      * intros [H NE]. rewrite O by exact NE. exact H.
Qed.

Lemma collect_fold_spec (sel : list str) :
  forall st : collect_state news,
    (forall k, In k (fetched st) -> dict_get (news_data st) k <> None) ->
    NoDup (fetched st) ->
    let st' := fold_left (collect_body fetch_news) sel st in
    all_news st'
    = all_news st ++ flat_map (cached_or_fetched fetch_news (news_data st)) sel /\
    NoDup (fetched st') /\
    (forall k, In k (fetched st') <->
               In k (fetched st) \/ (In k sel /\ dict_get (news_data st) k = None)).
Proof.
  induction sel as [|t sel IH]; intros st Hin ND; cbn [fold_left flat_map].
  - rewrite app_nil_r. repeat split; try assumption; [tauto|].
    intros [H|[[] _]]. exact H.
  - destruct (collect_body_spec st t) as (A & C & G & F).
    set (st1 := collect_body fetch_news st t) in *.
    assert (Hin1 : forall k, In k (fetched st1) -> dict_get (news_data st1) k <> None).
    { intros k Hk Hn. apply G in Hn. destruct Hn as [Hn NE].
      rewrite F in Hk. apply in_app_or in Hk. destruct Hk as [Hk|Hk].
      - exact (Hin k Hk Hn).
      - destruct (dict_get (news_data st) t); [destruct Hk|].
        destruct Hk as [->|[]]. congruence. }
    assert (ND1 : NoDup (fetched st1)).
    { rewrite F. destruct (dict_get (news_data st) t) eqn:E.
      - rewrite app_nil_r. exact ND.
      - apply NoDup_app; [exact ND | repeat constructor; intros [] |].
        intros a Ha [Ea|[]]. subst a. exact (Hin t Ha E). }
    destruct (IH st1 Hin1 ND1) as (A' & ND' & F').
    split; [|split; [exact ND'|]].
    + rewrite A', A, <- app_assoc. f_equal. f_equal.
      apply flat_map_ext. exact C.
    + intros k. rewrite F'. rewrite G. rewrite F, in_app_iff.
      destruct (dict_get (news_data st) t) eqn:E; simpl.
      * split.
        -- intros [[H|[]]|[H1 [H2 H3]]]; [left; exact H | right; tauto].
        -- intros [H|[[->|H1] H2]]; [left; left; exact H | congruence |].
           right. split; [exact H1|]. split; [exact H2 | intros ->; congruence].
      * split.
        -- intros [[H|[<-|[]]]|[H1 [H2 H3]]];
             [left; exact H | right; split; [left; reflexivity | exact E] | right; tauto].
        -- intros [H|[[->|H1] H2]]; [left; left; exact H | left; right; left; reflexivity |].
           destruct (str_eqb k t) eqn:Ek.
           ++ apply str_eqb_eq in Ek. left; right; left. symmetry; exact Ek.
           ++ right. split; [exact H1|]. split; [exact H2|].
              intros ->. rewrite str_eqb_refl in Ek. discriminate.
Qed.

(** X6. The collected news are, ticker after ticker in the order of the
    selection, the cached list of the ticker when the cache holds one and
    the fetched list otherwise. *)
Theorem collect_serves_cache_first (selected_tickers : list str)
    (cache : news_dict news) :
  all_news (collect fetch_news selected_tickers cache)
  = flat_map (cached_or_fetched fetch_news cache) selected_tickers.
Proof.
  unfold collect.
  destruct (collect_fold_spec selected_tickers (Collect cache [] []))
    as (A & _ & _); [intros k [] | constructor | exact A].
Qed.

(** X7. During one collection [fetch_news] is called at most once for a
    ticker, also when the ticker is selected several times, and it is
    called exactly for the selected tickers that the cache does not hold. *)
Theorem collect_fetches_once (selected_tickers : list str)
    (cache : news_dict news) :
  NoDup (fetched (collect fetch_news selected_tickers cache)) /\
  (forall t, In t (fetched (collect fetch_news selected_tickers cache)) <->
             In t selected_tickers /\ dict_get cache t = None).
Proof.
  unfold collect.
  destruct (collect_fold_spec selected_tickers (Collect cache [] []))
    as (_ & ND & F); [intros k [] | constructor |].
  split; [exact ND|]. intros t. rewrite F. cbn [fetched news_data].
  split; [intros [[]|H]; exact H | intros H; right; exact H].
Qed.

End CollectFacts.

Section RepeatedTicker.

Variable news : Type.
Variable title : news -> str.
Variable fetch_news : str -> list news.

Lemma collect_all_news (sel : list str) (cache : news_dict news) :
  all_news (collect fetch_news sel cache)
  = flat_map (cached_or_fetched fetch_news cache) sel.
Proof.
  unfold collect.
  destruct (collect_fold_spec news fetch_news sel (Collect cache [] []))
    as (A & _ & _); [intros k [] | constructor | exact A].
Qed.

(** X8. Selecting again a ticker that is already selected adds no card:
    after the removal of duplicate titles the cards are the same. *)
Theorem repeated_ticker_adds_no_card (selected_tickers : list str)
    (cache : news_dict news) (t : str) :
  In t selected_tickers ->
  unique title (all_news (collect fetch_news (selected_tickers ++ [t]) cache))
  = unique title (all_news (collect fetch_news selected_tickers cache)).
Proof.
  intros Ht. rewrite !collect_all_news, flat_map_app.
  apply unique_absorbs. intros n Hn. apply in_map.
  cbn [flat_map] in Hn. rewrite app_nil_r in Hn.
  apply in_flat_map. exists t. split; assumption.
Qed.

End RepeatedTicker.

(** ** The rows of the chart grid *)

Section ChartRows.

Lemma chart_rows_eq (l : list str) :
  chart_rows l
  = map (fun k => firstn 3 (skipn (3 * k) l)) (seq 0 ((length l + 2) / 3)).
Proof.
  unfold chart_rows, range_step, slice. rewrite map_map.
  replace (length l - 0 + 3 - 1) with (length l + 2) by lia.
  apply map_ext. intros k.
  replace (0 + k * 3 + 3 - (0 + k * 3)) with 3 by lia.
  replace (0 + k * 3) with (3 * k) by lia. reflexivity.
Qed.

Lemma rows_spec (m : nat) :
  forall l : list str,
    m = (length l + 2) / 3 ->
    let rows := map (fun k => firstn 3 (skipn (3 * k) l)) (seq 0 m) in
    concat rows = l /\
    (forall row, In row rows -> 1 <= length row <= 3).
Proof.
  induction m as [|m IH]; intros l Hm.
  - assert (L : length l = 0).
    { pose proof (Nat.div_mod_eq (length l + 2) 3) as D.
      pose proof (Nat.mod_upper_bound (length l + 2) 3) as U. lia. }
    destruct l; [|discriminate]. split; [reflexivity | intros row []].
  - assert (L : 1 <= length l).
    { destruct (length l) as [|n] eqn:E; [|lia].
      change ((0 + 2) / 3) with 0 in Hm. discriminate. }
    assert (Hm' : m = (length (skipn 3 l) + 2) / 3).
    { rewrite length_skipn.
      pose proof (Nat.div_mod_eq (length l + 2) 3) as D1.
      pose proof (Nat.mod_upper_bound (length l + 2) 3) as U1.
      pose proof (Nat.div_mod_eq (length l - 3 + 2) 3) as D2.
      pose proof (Nat.mod_upper_bound (length l - 3 + 2) 3) as U2.
      lia. }
    specialize (IH (skipn 3 l) Hm'). cbn zeta in IH. destruct IH as [C R].
    cbn zeta. rewrite <- cons_seq, <- seq_shift.
    cbn [map concat]. rewrite map_map, Nat.mul_0_r. cbn [skipn].
    assert (E : map (fun k => firstn 3 (skipn (3 * S k) l)) (seq 0 m)
                = map (fun k => firstn 3 (skipn (3 * k) (skipn 3 l))) (seq 0 m)).
    { apply map_ext. intros k. rewrite skipn_skipn. f_equal. f_equal. lia. }
    rewrite E. split.
    + rewrite C. apply firstn_skipn.
    + intros row [<-|H]; [|apply R; exact H].
      rewrite length_firstn. lia.
Qed.

(** X9. The chart grid shows every selected ticker once, in order, in rows
    of three: the rows put end to end are the selection, every row holds
    one to three tickers (no row is empty), and there are
    [ceil(n / 3)] rows. *)
Theorem chart_rows_cover_selection (selected_tickers : list str) :
  concat (chart_rows selected_tickers) = selected_tickers /\
  (forall row, In row (chart_rows selected_tickers) -> 1 <= length row <= 3) /\
  length (chart_rows selected_tickers) = (length selected_tickers + 2) / 3.
Proof.
  rewrite chart_rows_eq.
  destruct (rows_spec ((length selected_tickers + 2) / 3) selected_tickers eq_refl)
    as [C R].
  split; [exact C|]. split; [exact R|].
  rewrite length_map, length_seq. reflexivity.
Qed.

End ChartRows.

(** ** The keys of the cards *)

Section NewsKey.

Lemma str_in_cons (sub : str) (c : char) (s : str) :
  str_in sub (c :: s) = startswith (c :: s) sub || str_in sub s.
Proof. reflexivity. Qed.

Lemma str_in_nil (c : char) : str_in [c] [] = false.
Proof. reflexivity. Qed.

Lemma digits_no_underscore (d : Decimal.uint) :
  str_in underscore (digits d) = false.
Proof.
  unfold underscore.
  induction d; cbn [digits];
    [reflexivity | rewrite str_in_cons, startswith_char, IHd; reflexivity ..].
Qed.

Lemma digits_inj (d d' : Decimal.uint) : digits d = digits d' -> d = d'.
Proof.
  revert d'; induction d; intros d' H; destruct d';
    cbn [digits] in H; try discriminate H; try reflexivity;
    injection H as H; f_equal; apply IHd; exact H.
Qed.

Lemma str_of_nat_inj (i j : nat) : str_of_nat i = str_of_nat j -> i = j.
Proof.
  unfold str_of_nat. intros H. apply digits_inj in H.
  rewrite <- (DecimalNat.Unsigned.of_to i), <- (DecimalNat.Unsigned.of_to j), H.
  reflexivity.
Qed.

Lemma news_key_last_piece (ticker : str) (idx : nat) :
  last_piece (split (news_key ticker idx) underscore) = str_of_nat idx.
Proof.
  apply (split_last underscore _ ticker (str_of_nat idx)).
  - repeat constructor. intros [].
  - discriminate.
  - reflexivity.
  - apply digits_no_underscore.
Qed.

(** X10. The key of a card determines its ticker and its position: two
    cards have the same key only when both agree, so the summaries and the
    buttons of different cards never share a key. *)
Theorem news_key_injective (ticker1 ticker2 : str) (idx1 idx2 : nat) :
  news_key ticker1 idx1 = news_key ticker2 idx2 <->
  ticker1 = ticker2 /\ idx1 = idx2.
Proof.
  split; [|intros [-> ->]; reflexivity].
  intros H.
  assert (E : str_of_nat idx1 = str_of_nat idx2).
  { rewrite <- (news_key_last_piece ticker1 idx1),
            <- (news_key_last_piece ticker2 idx2), H. reflexivity. }
  split; [|apply str_of_nat_inj; exact E].
  unfold news_key in H. rewrite E in H.
  apply app_inv_tail in H. exact H.
Qed.

End NewsKey.

(** ** The tickers typed by the user *)

Section CustomTickerFacts.

Variable upper_char : char -> str.

Lemma lstrip_blank (b : str) : forallb isspace b = true -> lstrip b = [].
Proof.
  induction b as [|c b IH]; [reflexivity|].
  cbn [forallb lstrip]. intros H. apply andb_true_iff in H.
  destruct H as [-> H]. apply IH; exact H.
Qed.

Lemma strip_blank (b : str) : forallb isspace b = true -> strip b = [].
Proof. intros H. unfold strip. rewrite lstrip_blank by exact H. reflexivity. Qed.

Lemma blank_no_comma (b : str) :
  forallb isspace b = true -> str_in comma b = false.
Proof.
  unfold comma. induction b as [|c b IH]; [reflexivity|].
  cbn [forallb]. intros H. apply andb_true_iff in H. destruct H as [Hc H].
  rewrite str_in_cons, startswith_char, (IH H), orb_false_r.
  destruct (char_eqb 44%N c) eqn:E; [|reflexivity].
  apply char_eqb_eq in E. subst c. discriminate Hc.
Qed.

Lemma last_In_nonempty (l : list str) : l <> [] -> In (last l []) l.
Proof.
  intros NE. rewrite (app_removelast_last [] NE) at 2.
  apply in_or_app. right. left. reflexivity.
Qed.

(** X11. A typed text adds one ticker per comma-separated piece, empty
    pieces included: one more ticker than the text has commas. An empty
    text adds none. *)
Theorem custom_tickers_count (selected_tickers : list str) (custom_ticker : str) :
  length (extend_selected upper_char selected_tickers custom_ticker)
  = length selected_tickers
    + match custom_ticker with
      | [] => 0
      | _ :: _ => S (count_occ N.eq_dec custom_ticker 44%N)
      end.
Proof.
  destruct custom_ticker as [|c s]; [cbn; lia|].
  cbn [extend_selected]. rewrite length_app, length_map.
  unfold split, comma. rewrite split_go_char_length. reflexivity.
Qed.

(** X12. When the typed text ends with a comma, or with a comma followed
    only by white space, the empty ticker is added to the selection. *)
Theorem trailing_comma_adds_empty_ticker (selected_tickers : list str)
    (a b : str) :
  forallb isspace b = true ->
  In [] (extend_selected upper_char selected_tickers (a ++ comma ++ b)).
Proof.
  intros Hb. unfold extend_selected.
  destruct (a ++ comma ++ b) as [|c s] eqn:E;
    [destruct a; discriminate E|].
  rewrite <- E. apply in_or_app. right.
  apply in_map_iff. exists b. split.
  - rewrite strip_blank by exact Hb. reflexivity.
  - rewrite <- (split_last comma (a ++ comma ++ b) a b) at 1.
    + apply last_In_nonempty. apply split_go_nonempty.
    + repeat constructor. intros [].
    + discriminate.
    + reflexivity.
    + apply blank_no_comma; exact Hb.
Qed.

End CustomTickerFacts.

(** ** The page on concrete inputs *)

Example extend_selected_example :
  extend_selected ascii_upper_char [spy] typed_tickers = [spy; amd; coin; []].
Proof. vm_compute. reflexivity. Qed.

Example chart_rows_example :
  chart_rows [spy; amd; coin; nvda; spy; amd; coin]
  = [[spy; amd; coin]; [nvda; spy; amd]; [coin]].
Proof. vm_compute. reflexivity. Qed.

Example news_key_example : news_key nvda 12 = nvda_12.
Proof. vm_compute. reflexivity. Qed.

Example collect_example :
  let st := collect headlines [spy; nvda; spy] [(nvda, [coin])] in
  fetched st = [spy] /\
  all_news st = [spy; amd; coin; spy; amd] /\
  unique (fun n => n) (all_news st) = [spy; amd; coin].
Proof. vm_compute. repeat split. Qed.

Lemma repeated_ticker_adds_no_card_witness :
  unique (fun n => n) (all_news (collect headlines ([spy; nvda] ++ [spy]) []))
  = unique (fun n => n) (all_news (collect headlines [spy; nvda] [])).
Proof.
  apply (repeated_ticker_adds_no_card str (fun n => n) headlines [spy; nvda] [] spy).
  left. reflexivity.
Defined.

Lemma trailing_comma_adds_empty_ticker_witness :
  In [] (extend_selected ascii_upper_char [spy] (amd ++ comma ++ [32%N])).
Proof.
  apply (trailing_comma_adds_empty_ticker ascii_upper_char [spy] amd [32%N]).
  reflexivity.
Defined.

(** * Fetching the news *)

Section FetchFacts.

Variable ticker_news : str -> py_exn + pyval.
Variable iso_display : str -> py_exn + str.
Variable timestamp_display : pyval -> py_exn + str.

Let process := process_item iso_display timestamp_display.
Let elements := news_elements ticker_news.
Let fetch := fetch_news ticker_news iso_display timestamp_display.

Lemma process_all_ok (t : str) (raws : list pyval) :
  forall acc,
    (forall raw, In raw raws -> exists item, process t raw = inr item) ->
    exists items,
      process_all iso_display timestamp_display t raws acc = inr (acc ++ items) /\
      Forall2 (fun raw item => process t raw = inr item) raws items.
Proof.
  induction raws as [|raw raws IH]; intros acc H.
  - exists []. split; [cbn; rewrite app_nil_r; reflexivity | constructor].
  - destruct (H raw (or_introl eq_refl)) as [item Hi].
    destruct (IH (acc ++ [item])) as (items & E & F).
    { intros x Hx. apply H. right; exact Hx. }
    exists (item :: items). split.
    + cbn [process_all]. fold process. rewrite Hi. cbn. rewrite E, <- app_assoc.
      reflexivity.
    + constructor; assumption.
Qed.

Lemma process_all_fails (t : str) (raws : list pyval) :
  forall acc raw e,
    In raw raws -> process t raw = inl e ->
    exists e', process_all iso_display timestamp_display t raws acc = inl e'.
Proof.
  induction raws as [|x raws IH]; intros acc raw e Hin He; [destruct Hin|].
  cbn [process_all]. fold process.
  destruct (process t x) as [e0|item] eqn:Ex; cbn.
  - exists e0. reflexivity.
  - destruct Hin as [->|Hin]; [congruence|].
    apply (IH _ raw e Hin He).
Qed.

Lemma process_item_ticker (t : str) (raw : pyval) (item : news_item) :
  process t raw = inr item -> item_ticker item = t.
Proof.
  unfold process, process_item. intros H.
  destruct raw; try discriminate H.
  cbn [bind ret Monad_either] in H.
  repeat match type of H with
         | match ?c with inl _ => _ | inr _ => _ end = inr _ =>
             destruct c; [discriminate H|]
         end.
  injection H as <-. reflexivity.
Qed.

Lemma process_all_length (t : str) (raws : list pyval) :
  forall acc items,
    process_all iso_display timestamp_display t raws acc = inr items ->
    length items = length acc + length raws /\
    (forall item, In item items -> In item acc \/ item_ticker item = t).
Proof.
  induction raws as [|x raws IH]; intros acc items H.
  - cbn in H. injection H as <-. split; [cbn; lia | auto].
  - cbn [process_all] in H. fold process in H.
    destruct (process t x) as [e0|item] eqn:Ex; cbn in H; [discriminate|].
    destruct (IH _ _ H) as [L T]. split.
    + rewrite L, length_app. cbn. lia.
    + intros i Hi. destruct (T i Hi) as [Ha|Ht]; [|right; exact Ht].
      apply in_app_or in Ha. destruct Ha as [Ha|[<-|[]]]; [left; exact Ha|].
      right. apply process_item_ticker with (raw := x). exact Ex.
Qed.

(** The elements are at most [max_news]. *)
Lemma slice_to_length (A : Type) (l : list A) (n : Z) :
  (0 <= n)%Z -> length (slice_to l n) <= Z.to_nat n.
Proof.
  intros H. unfold slice_to.
  destruct (Z.leb_spec 0 n); [|lia]. rewrite length_firstn. lia.
Qed.

Lemma elements_length (t : str) (max_news : Z) (raws : list pyval) :
  (0 <= max_news)%Z -> elements t max_news = inr raws ->
  length raws <= Z.to_nat max_news.
Proof.
  intros Hn. unfold elements, news_elements. cbn [bind ret Monad_either].
  destruct (ticker_news t) as [e|v]; [discriminate|].
  destruct (truthy v).
  - destruct v; cbn; try discriminate; intros H; injection H as <-.
    + rewrite length_map. apply slice_to_length; exact Hn.
    + apply slice_to_length; exact Hn.
  - cbn. intros H. injection H as <-. cbn. lia.
Qed.

(** X13. When every element of the news payload can be processed, the
    function returns one item per element, in the order of the payload,
    and reports no error. *)
Theorem fetch_news_one_item_per_element (t : str) (max_news : Z)
    (raws : list pyval) :
  elements t max_news = inr raws ->
  (forall raw, In raw raws -> exists item, process t raw = inr item) ->
  exists items,
    fetch t max_news = (items, []) /\
    Forall2 (fun raw item => process t raw = inr item) raws items.
Proof.
  intros E H. destruct (process_all_ok t raws [] H) as (items & P & F).
  exists items. split; [|exact F].
  unfold fetch, fetch_news, fetch_news_body. fold elements. rewrite E.
  cbn [bind Monad_either]. rewrite P. reflexivity.
Qed.

Lemma fetch_fails (t : str) (max_news : Z)
    (raws : list pyval) (raw : pyval) (e : py_exn) :
  elements t max_news = inr raws ->
  In raw raws -> process t raw = inl e ->
  exists e', fetch t max_news = ([], [StError t e']).
Proof.
  intros E Hin He.
  destruct (process_all_fails t raws [] raw e Hin He) as [e' P].
  exists e'. unfold fetch, fetch_news, fetch_news_body. fold elements.
  rewrite E. cbn [bind Monad_either]. rewrite P. reflexivity.
Qed.

(** X14. One element that cannot be processed empties the whole result:
    the function returns the empty list, also when the other elements are
    sound, and reports one error. *)
Theorem fetch_news_all_or_nothing (t : str) (max_news : Z)
    (raws : list pyval) (raw : pyval) (e : py_exn) :
  elements t max_news = inr raws ->
  In raw raws -> process t raw = inl e ->
  exists e', fetch t max_news = ([], [StError t e']).
Proof.
  intros E Hin He.
  destruct (process_all_fails t raws [] raw e Hin He) as [e' P].
  exists e'. unfold fetch, fetch_news, fetch_news_body. fold elements.
  rewrite E. cbn [bind Monad_either]. rewrite P. reflexivity.
Qed.

(** X15. For a non-negative [max_news] the function returns at most
    [max_news] items, each of them tagged with the ticker asked for, and
    it reports at most one error. *)
Theorem fetch_news_bounded (t : str) (max_news : Z) :
  (0 <= max_news)%Z ->
  (Z.of_nat (length (fst (fetch t max_news))) <= max_news)%Z /\
  (forall item, In item (fst (fetch t max_news)) -> item_ticker item = t) /\
  length (snd (fetch t max_news)) <= 1.
Proof.
  intros Hn. unfold fetch, fetch_news, fetch_news_body. fold elements.
  destruct (elements t max_news) as [e|raws] eqn:E; cbn [bind Monad_either].
  - cbn. repeat split; [lia | intros item [] | lia].
  - destruct (process_all iso_display timestamp_display t raws []) as [e|items] eqn:P.
    + cbn. repeat split; [lia | intros item [] | lia].
    + destruct (process_all_length t raws [] items P) as [L T].
      pose proof (elements_length t max_news raws Hn E) as B.
      cbn [fst snd length]. cbn [length] in L. repeat split; [lia | | lia].
      intros item Hi. destruct (T item Hi) as [[]|Ht]. exact Ht.
Qed.

(** X16. A ticker without news is no error: when the payload is [None] or
    an empty list the function returns the empty list and reports
    nothing; when reading the payload raises, it returns the empty list
    and reports the exception. *)
Theorem fetch_news_without_news (t : str) (max_news : Z) :
  (forall v, ticker_news t = inr v -> truthy v = false ->
             fetch t max_news = ([], [])) /\
  (forall e, ticker_news t = inl e ->
             fetch t max_news = ([], [StError t e])).
Proof.
  unfold fetch, fetch_news, fetch_news_body, news_elements. split.
  - intros v Hv Ht. rewrite Hv. cbn [bind ret Monad_either]. rewrite Ht.
    reflexivity.
  - intros e He. rewrite He. reflexivity.
Qed.

(** X17. An element whose provider entry is present but is not a dict
    (a [null], for instance) cannot be processed, so the function returns
    the empty list and reports an error. *)
Theorem non_dict_provider_empties_the_fetch (t : str) (max_news : Z)
    (raws : list pyval) (nd cd : list (str * pyval)) :
  elements t max_news = inr raws ->
  In (PDict nd) raws ->
  lookup nd k_content (PDict nd) = PDict cd ->
  is_dict (lookup cd k_provider (PDict [])) = false ->
  exists e, fetch t max_news = ([], [StError t e]).
Proof.
  intros E Hin Hc Hp.
  assert (F : exists e, process t (PDict nd) = inl e).
  { unfold process, process_item. rewrite Hc. cbn [bind ret get Monad_either].
    destruct (extract_link nd (PDict cd)) as [e|link]; [exists e; reflexivity|].
    destruct (lookup cd k_provider (PDict [])); try discriminate Hp;
      exists AttributeError; reflexivity. }
  destruct F as [e F].
  apply (fetch_fails t max_news raws (PDict nd) e E Hin F).
Qed.

(** X18. For an element whose content has a non-empty text as [pubDate],
    the published text is the formatted date when the text parses as an
    ISO date (its [Z] replaced by [+00:00]), and otherwise the first 16
    code points of the text; no exception is raised and the publish time
    of the provider is not consulted. *)
Theorem published_of_text_date (nd cd : list (str * pyval)) (s : str) :
  lookup cd k_pubDate (PStr []) = PStr s -> s <> [] ->
  extract_published iso_display timestamp_display nd (PDict cd)
  = inr (PStr match iso_display (replace_Z s) with
              | inr shown => shown
              | inl _ => firstn 16 s
              end).
Proof.
  intros H NE. unfold extract_published.
  cbn [bind ret get catch Monad_either Exception_either]. rewrite H.
  destruct s as [|c s]; [congruence|]. cbn [truthy].
  destruct (iso_display (replace_Z (c :: s))) as [e|shown]; [|reflexivity].
  cbn [py_len ret Monad_either].
  destruct (Nat.ltb_spec 16 (length (c :: s))) as [L|L].
  - reflexivity.
  - rewrite firstn_all2 by exact L. reflexivity.
Qed.

End FetchFacts.

(** ** [fetch_news] on concrete payloads *)

Example fetch_news_example :
  fetch_news (sample_news (PList [nested_element; flat_element]))
             sample_iso_display sample_timestamp_display nvda 5
  = ([NewsItem (PStr headline) (PStr story_url) (PStr reuters) (PStr thumb_url)
               (PStr shown_date) (PStr []) nvda;
      NewsItem (PStr headline) (PStr other_url) (PStr reuters) PNone
               (PStr odd_date_cut) (PStr []) nvda],
     []).
Proof. vm_compute. reflexivity. Qed.

Example fetch_news_null_provider_example :
  fetch_news (sample_news (PList [nested_element; null_provider_element]))
             sample_iso_display sample_timestamp_display nvda 5
  = ([], [StError nvda AttributeError]).
Proof. vm_compute. reflexivity. Qed.

Lemma fetch_news_one_item_per_element_witness :
  exists items,
    fetch_news (sample_news (PList [nested_element; flat_element]))
               sample_iso_display sample_timestamp_display nvda 5
    = (items, []) /\
    Forall2 (fun raw item =>
               process_item sample_iso_display sample_timestamp_display nvda raw
               = inr item)
            [nested_element; flat_element] items.
Proof.
  apply (fetch_news_one_item_per_element
           (sample_news (PList [nested_element; flat_element]))
           sample_iso_display sample_timestamp_display nvda 5
           [nested_element; flat_element]).
  - reflexivity.
  - intros raw [<-|[<-|[]]]; eexists; vm_compute; reflexivity.
Defined.

Lemma fetch_news_all_or_nothing_witness :
  exists e',
    fetch_news (sample_news (PList [nested_element; null_provider_element]))
               sample_iso_display sample_timestamp_display nvda 5
    = ([], [StError nvda e']).
Proof.
  apply (fetch_news_all_or_nothing
           (sample_news (PList [nested_element; null_provider_element]))
           sample_iso_display sample_timestamp_display nvda 5
           [nested_element; null_provider_element]
           null_provider_element AttributeError).
  - reflexivity.
  - right. left. reflexivity.
  - vm_compute. reflexivity.
Defined.

Lemma fetch_news_bounded_witness :
  (Z.of_nat (length (fst (fetch_news
                            (sample_news (PList [nested_element; flat_element]))
                            sample_iso_display sample_timestamp_display nvda 1)))
   <= 1)%Z.
Proof.
  apply (fetch_news_bounded
           (sample_news (PList [nested_element; flat_element]))
           sample_iso_display sample_timestamp_display nvda 1).
  lia.
Defined.

Lemma non_dict_provider_empties_the_fetch_witness :
  exists e,
    fetch_news (sample_news (PList [nested_element; null_provider_element]))
               sample_iso_display sample_timestamp_display nvda 5
    = ([], [StError nvda e]).
Proof.
  apply (non_dict_provider_empties_the_fetch
           (sample_news (PList [nested_element; null_provider_element]))
           sample_iso_display sample_timestamp_display nvda 5
           [nested_element; null_provider_element]
           [(k_content, PDict [(k_title, PStr headline); (k_provider, PNone)])]
           [(k_title, PStr headline); (k_provider, PNone)]).
  - reflexivity.
  - right. left. reflexivity.
  - vm_compute. reflexivity.
  - vm_compute. reflexivity.
Defined.

Lemma published_of_text_date_witness :
  extract_published sample_iso_display sample_timestamp_display []
                    (PDict [(k_pubDate, PStr odd_date)])
  = inr (PStr odd_date_cut).
Proof.
  rewrite (published_of_text_date sample_iso_display sample_timestamp_display
             [] [(k_pubDate, PStr odd_date)] odd_date).
  - vm_compute. reflexivity.
  - vm_compute. reflexivity.
  - discriminate.
Defined.

(** * The price chart *)

Section ChartFacts.

Variable frame : Type.
Variable empty : frame -> bool.
Variable rows : frame -> nat.
Variable close_last close_first high_max low_min : frame -> py_exn + PrimFloat.float.
Variable close_column : frame -> py_exn + frame.
Variable history : str -> str -> option str -> py_exn + frame.

Let fetch :=
  fetch_stock_chart empty rows close_last close_first close_column
                    high_max low_min history.
Let finish' :=
  finish empty rows close_last close_first close_column high_max low_min.
Let short := too_short empty rows.

Lemma finish_chart (sym : str) (hist : frame) (c : chart frame)
    (errs : list chart_error) :
  finish' sym hist = (Some c, errs) ->
  short hist = false /\ errs = [] /\
  data_points c = rows hist /\ chart_ticker c = sym.
Proof.
  unfold finish', finish. fold short. destruct (short hist); [discriminate|].
  destruct (build_chart rows close_last close_first close_column high_max
              low_min sym hist) as [e|c'] eqn:B; [discriminate|].
  intros H. injection H as <- <-.
  unfold build_chart in B. cbn [bind ret Monad_either] in B.
  repeat match type of B with
         | match ?x with inl _ => _ | inr _ => _ end = inr _ =>
             destruct x; [discriminate B|]
         end.
  injection B as <-. repeat split.
Qed.

Lemma finish_none (sym : str) (hist : frame) :
  finish' sym hist = (None, []) <-> short hist = true.
Proof.
  unfold finish', finish. fold short. destruct (short hist).
  - split; reflexivity.
  - destruct (build_chart _ _ _ _ _ _ _ _); split; discriminate.
Qed.

Lemma short_rows (hist : frame) : short hist = false -> 2 <= rows hist.
Proof.
  unfold short, too_short. intros H. apply orb_false_iff in H.
  destruct H as [_ H]. apply Nat.ltb_ge in H. exact H.
Qed.

(** X19. A chart that the function returns has at least two data points,
    carries the ticker asked for, and comes without any reported error. *)
Theorem chart_has_two_points (sym period : str) (c : chart frame) :
  fst (fst (fetch sym period)) = Some c ->
  2 <= data_points c /\ chart_ticker c = sym /\ snd (fst (fetch sym period)) = [].
Proof.
  unfold fetch, fetch_stock_chart.
  destruct (history sym period (Some (map_get interval_map period i_1d)))
    as [e|hist]; [discriminate|].
  fold short. fold finish'.
  destruct (short hist) eqn:S1.
  - destruct (history sym period None) as [e|hist']; [discriminate|].
    cbn [fst snd]. destruct (finish' sym hist') as [o errs] eqn:F.
    cbn [fst snd]. intros ->.
    destruct (finish_chart _ _ _ _ F) as (S & -> & D & T).
    rewrite D. repeat split; [apply short_rows; exact S | exact T].
  - cbn [fst snd]. destruct (finish' sym hist) as [o errs] eqn:F.
    cbn [fst snd]. intros ->.
    destruct (finish_chart _ _ _ _ F) as (S & -> & D & T).
    rewrite D. repeat split; [apply short_rows; exact S | exact T].
Qed.

(** X20. The history is asked for first with the interval of the table
    (one day for a period that the table does not hold), and a second
    time, without interval, exactly when the first history was read and is
    empty or has fewer than two rows; it is never asked for a third time. *)
Theorem history_retried_only_when_short (sym period : str) :
  hd_error (snd (fetch sym period))
  = Some (Some (map_get interval_map period i_1d)) /\
  length (snd (fetch sym period)) <= 2 /\
  (In None (snd (fetch sym period)) <->
   exists hist,
     history sym period (Some (map_get interval_map period i_1d)) = inr hist /\
     short hist = true).
Proof.
  unfold fetch, fetch_stock_chart.
  destruct (history sym period (Some (map_get interval_map period i_1d)))
    as [e|hist].
  - cbn [fst snd hd_error length In]. split; [reflexivity|]. split; [lia|].
    split; [intros [H|[]]; discriminate H | intros (h & H & _); discriminate H].
  - fold short. destruct (short hist) eqn:S1.
    + assert (G : forall r : option (chart frame) * list chart_error * list (option str),
                snd r = [Some (map_get interval_map period i_1d); None] ->
                hd_error (snd r) = Some (Some (map_get interval_map period i_1d)) /\
                length (snd r) <= 2 /\
                (In None (snd r) <->
                 exists h, @inr py_exn frame hist = inr h /\ short h = true)).
      { intros r ->. cbn [hd_error length In]. split; [reflexivity|].
        split; [lia|]. split.
        - intros _. exists hist. split; [reflexivity | exact S1].
        - intros _. right. left. reflexivity. }
      destruct (history sym period None) as [e|hist']; apply G; reflexivity.
    + cbn [fst snd hd_error length In]. split; [reflexivity|]. split; [lia|].
      split; [intros [H|[]]; discriminate H|].
      intros (h & H & S). injection H as <-. congruence.
Qed.

(** X21. The function returns [None] without reporting an error exactly
    when both histories were read and both are empty or have fewer than
    two rows: missing data is not an error. *)
Theorem no_chart_without_error (sym period : str) :
  fst (fetch sym period) = (None, []) <->
  exists hist hist',
    history sym period (Some (map_get interval_map period i_1d)) = inr hist /\
    short hist = true /\
    history sym period None = inr hist' /\ short hist' = true.
Proof.
  unfold fetch, fetch_stock_chart.
  destruct (history sym period (Some (map_get interval_map period i_1d)))
    as [e|hist].
  - cbn. split; [discriminate | intros (h & h' & H & _); discriminate H].
  - fold short. fold finish'. destruct (short hist) eqn:S1.
    + destruct (history sym period None) as [e|hist']; cbn [fst].
      * split; [discriminate | intros (h & h' & _ & _ & H & _); discriminate H].
      * rewrite finish_none. split.
        -- intros S2. exists hist, hist'. repeat split; assumption.
        -- intros (h & h' & H1 & _ & H2 & S2). injection H2 as <-. exact S2.
    + cbn [fst]. rewrite finish_none. split; [congruence|].
      intros (h & h' & H1 & S & _). injection H1 as <-. congruence.
Qed.

End ChartFacts.

Example fetch_stock_chart_example :
  fetch_stock_chart sample_empty
                    (@length PrimFloat.float) sample_last sample_first
                    (fun h => inr h) sample_last sample_first
                    sample_history nvda p_1mo
  = (Some (ChartData nvda [f_0; f_2; f_3] f_3 f_3 (PInt 0) f_3 f_0 3), [],
     [Some i_1h; None]).
Proof. vm_compute. reflexivity. Qed.

Lemma chart_has_two_points_witness :
  2 <= data_points (ChartData nvda [f_0; f_2; f_3] f_3 f_3 (PInt 0) f_3 f_0 3).
Proof.
  apply (chart_has_two_points
           sample_frame sample_empty
           (@length PrimFloat.float) sample_last sample_first sample_last
           sample_first (fun h => inr h) sample_history nvda p_1mo).
  vm_compute. reflexivity.
Defined.

(** * More on the interpreter *)

Section Provenance.

Variable lower : str -> str.

Lemma window_In (lines : list str) (i : nat) (x : str) :
  In x (window lines i) -> In x lines.
Proof.
  unfold window, range. intros H. apply in_map_iff in H.
  destruct H as (j & <- & Hj). apply in_seq in Hj.
  apply nth_In. lia.
Qed.

Lemma join_In (sep : str) (ls : list str) (l : str) :
  In l ls -> exists a b, join sep ls = a ++ l ++ b.
Proof.
  induction ls as [|x rest IH]; intros H; [destruct H|].
  destruct rest as [|y rest].
  - destruct H as [->|[]]. exists [], []. cbn. rewrite app_nil_r. reflexivity.
  - rewrite join_cons by discriminate. destruct H as [->|H].
    + exists [], (sep ++ join sep (y :: rest)). reflexivity.
    + destruct (IH H) as (a & b & E). rewrite E.
      exists (x ++ sep ++ a), b. rewrite <- !app_assoc. reflexivity.
Qed.

(** What a line contains, the stripped response contains. *)
Lemma line_part (raw l tok : str) :
  In l (lines_of raw) -> str_in tok l = true -> str_in tok (strip raw) = true.
Proof.
  intros Hl Ht.
  destruct (join_In newline _ _ Hl) as (a & b & E).
  unfold lines_of in E. rewrite join_split in E by discriminate.
  rewrite E. apply str_in_app_r, str_in_app_l. exact Ht.
Qed.

Lemma classify_grounded (raw l : str) :
  In l (lines_of raw) -> grounded raw (classify (sentiment_text l)).
Proof.
  intros Hl. unfold classify.
  destruct (str_in tok_positive (sentiment_text l)) eqn:P.
  - split; [|discriminate]. intros _.
    rewrite <- strip_positive. apply (line_part raw l); [exact Hl|].
    apply sentiment_text_positive; exact P.
  - destruct (str_in tok_negative (sentiment_text l)) eqn:N.
    + split; [discriminate|]. intros _.
      rewrite <- strip_negative. apply (line_part raw l); [exact Hl|].
      apply sentiment_text_negative; exact N.
    + split; discriminate.
Qed.

Lemma scan_grounded (raw fallback : str) :
  grounded raw (l_sentiment (scan raw fallback (lines_of raw))).
Proof.
  destruct (existsb sentiment_line (lines_of raw)) eqn:X.
  - apply existsb_exists, last_satisfying in X.
    destruct X as (pre & l & post & E & Hl & Hpost).
    rewrite E. rewrite scan_sentiment_last by assumption.
    apply classify_grounded. rewrite E. apply in_or_app. right. left. reflexivity.
  - rewrite scan_sentiment_none; [split; discriminate|].
    intros l Hl. destruct (sentiment_line l) eqn:E; [|reflexivity].
    assert (existsb sentiment_line (lines_of raw) = true)
      by (apply existsb_exists; exists l; auto).
    congruence.
Qed.

Lemma rescan_grounded (raw s0 : str) (ls : list str) :
  (forall l, In l ls -> In l (lines_of raw)) ->
  grounded raw s0 -> grounded raw (rescan lower ls s0).
Proof.
  intros Hls H0. induction ls as [|x ls IH]; [exact H0|].
  assert (IH' : grounded raw (rescan lower ls s0))
    by (apply IH; intros l Hl; apply Hls; right; exact Hl).
  assert (Hx : In x (lines_of raw)) by (apply Hls; left; reflexivity).
  cbn [rescan].
  destruct (str_in sentiment_word x || str_in sentiment_word_en (lower x));
    [|exact IH'].
  destruct (str_in tok_positive x) eqn:P.
  - split; [|discriminate]. intros _.
    rewrite <- strip_positive. apply (line_part raw x); assumption.
  - destruct (str_in tok_negative x) eqn:N; [|exact IH'].
    split; [discriminate|]. intros _.
    rewrite <- strip_negative. apply (line_part raw x); assumption.
Qed.

Lemma last_mention_grounded (raw s0 : str) :
  grounded raw s0 -> grounded raw (last_mention raw s0).
Proof.
  intros H0. unfold last_mention.
  destruct ((rfind raw tok_positive >? rfind raw tok_negative)%Z
            && negb (rfind raw tok_positive =? -1)%Z) eqn:A.
  - apply andb_true_iff in A. destruct A as [_ A].
    apply negb_true_iff, Z.eqb_neq in A.
    split; [|discriminate]. intros _.
    destruct (str_in tok_positive raw) eqn:P; [reflexivity|].
    apply rfind_absent in P. congruence.
  - destruct ((rfind raw tok_negative >? rfind raw tok_positive)%Z
              && negb (rfind raw tok_negative =? -1)%Z) eqn:B; [|exact H0].
    apply andb_true_iff in B. destruct B as [_ B].
    apply negb_true_iff, Z.eqb_neq in B.
    split; [discriminate|]. intros _.
    destruct (str_in tok_negative raw) eqn:N; [reflexivity|].
    apply rfind_absent in N. congruence.
Qed.

(** X22. The returned sentiment names a token only when the raw response
    contains that token: a response that names neither token anywhere is
    always neutral, with or without sentiment lines. *)
Theorem sentiment_token_occurs_in_response (raw fallback : str) :
  exists r,
    summarize_with_gemini lower (inr raw) fallback = inr r /\
    (sentiment r = tok_positive -> str_in tok_positive raw = true) /\
    (sentiment r = tok_negative -> str_in tok_negative raw = true) /\
    (str_in tok_positive raw = false -> str_in tok_negative raw = false ->
     sentiment r = tok_neutral).
Proof.
  eexists. split; [apply summarize_returned|].
  unfold interpret. cbn [sentiment].
  set (s := resolve lower raw (lines_of raw)
              (l_sentiment (scan raw fallback (lines_of raw)))).
  assert (G : grounded raw s).
  { unfold s, resolve. pose proof (scan_grounded raw fallback) as G0.
    destruct (str_eqb _ tok_neutral); [|exact G0].
    assert (G1 : grounded raw
              (rescan lower (lines_of raw)
                 (l_sentiment (scan raw fallback (lines_of raw)))))
      by (apply rescan_grounded; [auto | exact G0]).
    destruct (str_eqb _ tok_neutral); [|exact G1].
    apply last_mention_grounded; exact G1. }
  assert (L : is_label s) by (apply resolve_label, scan_label).
  destruct G as [Gp Gn]. split; [exact Gp|]. split; [exact Gn|].
  intros Hp Hn. destruct L as [L|[L|L]]; [| |exact L].
  - rewrite (Gp L) in Hp. discriminate.
  - rewrite (Gn L) in Hn. discriminate.
Qed.

End Provenance.

Section StripFacts.

Lemma lstrip_head (s : str) :
  lstrip s = [] \/ exists c t, lstrip s = c :: t /\ isspace c = false.
Proof.
  induction s as [|x s IH]; [left; reflexivity|].
  cbn [lstrip]. destruct (isspace x) eqn:E; [exact IH|].
  right. exists x, s. split; [reflexivity | exact E].
Qed.

Lemma lstrip_fixed (c : char) (t : str) :
  isspace c = false -> lstrip (c :: t) = c :: t.
Proof. intros H. cbn [lstrip]. rewrite H. reflexivity. Qed.

Lemma lstrip_idempotent (s : str) : lstrip (lstrip s) = lstrip s.
Proof.
  destruct (lstrip_head s) as [->|(c & t & -> & H)]; [reflexivity|].
  apply lstrip_fixed; exact H.
Qed.

Lemma lstrip_snoc (x : str) (c : char) :
  isspace c = false -> lstrip (x ++ [c]) = lstrip x ++ [c].
Proof.
  intros H. induction x as [|y x IH]; cbn [app lstrip].
  - rewrite H. reflexivity.
  - destruct (isspace y); [exact IH | reflexivity].
Qed.

Lemma rstrip_cons (c : char) (t : str) :
  isspace c = false -> rstrip (c :: t) = c :: rstrip t.
Proof.
  intros H. unfold rstrip. cbn [rev].
  rewrite lstrip_snoc by exact H. rewrite rev_app_distr. reflexivity.
Qed.

Lemma rstrip_idempotent (s : str) : rstrip (rstrip s) = rstrip s.
Proof. unfold rstrip. rewrite rev_involutive, lstrip_idempotent. reflexivity. Qed.

(** Stripping a stripped text changes nothing. *)
Lemma strip_idempotent (s : str) : strip (strip s) = strip s.
Proof.
  unfold strip.
  destruct (lstrip_head s) as [->|(c & t & -> & H)]; [reflexivity|].
  rewrite rstrip_cons by exact H. rewrite lstrip_fixed by exact H.
  rewrite <- rstrip_cons by exact H. apply rstrip_idempotent.
Qed.

End StripFacts.

Section FieldProvenance.

Variable lower : str -> str.

Lemma fold_invariant (raw : str) (lines : list str) (P : locals -> Prop) :
  (forall st i l, P st -> P (loop_body raw lines st (i, l))) ->
  forall xs st, P st -> P (fold_left (loop_body raw lines) xs st).
Proof.
  intros Hbody. induction xs as [|[i l] xs IH]; intros st H; [exact H|].
  cbn [fold_left]. apply IH, Hbody, H.
Qed.

Lemma before_break_In (x : str) (l : list str) :
  In x (before_break l) -> In x l.
Proof.
  induction l as [|y l IH]; [intros []|].
  cbn [before_break].
  destruct (negb (is_quote y) && str_in sentiment_marker y); [intros []|].
  intros [<-|H]; [left; reflexivity | right; apply IH; exact H].
Qed.

(** X23. The translated title is the fallback title or a stripped text:
    it never begins or ends with white space unless the fallback does. *)
Theorem korean_title_is_stripped (raw fallback : str) :
  exists r,
    summarize_with_gemini lower (inr raw) fallback = inr r /\
    (korean_title r = fallback \/ strip (korean_title r) = korean_title r).
Proof.
  eexists. split; [apply summarize_returned|].
  unfold interpret. cbn [korean_title]. unfold scan.
  apply (fold_invariant raw (lines_of raw)
           (fun st => l_korean_title st = fallback
                      \/ strip (l_korean_title st) = l_korean_title st)).
  - intros st i l H. destruct (title_line l) eqn:E.
    + right. rewrite body_title by exact E. apply strip_idempotent.
    + rewrite body_title_other by exact E. exact H.
  - left. reflexivity.
Qed.

(** X24. The summary is the entire raw text, or the newline-join of one or
    more stripped lines of the response that begin with a bullet marker;
    it is never empty when the response is not. *)
Theorem summary_provenance (raw fallback : str) :
  exists r,
    summarize_with_gemini lower (inr raw) fallback = inr r /\
    (summary r = raw \/
     exists bl,
       bl <> [] /\ summary r = join newline bl /\
       forall b, In b bl ->
                 is_bullet b = true /\
                 exists l, In l (lines_of raw) /\ b = strip l) /\
    (raw <> [] -> summary r <> []).
Proof.
  eexists. split; [apply summarize_returned|].
  unfold interpret. cbn [summary]. unfold scan.
  set (st := fold_left _ _ _).
  assert (I : l_summary st = [] \/ l_summary st = raw \/
              exists bl,
                bl <> [] /\ l_summary st = join newline bl /\
                forall b, In b bl ->
                          is_bullet b = true /\
                          exists l, In l (lines_of raw) /\ b = strip l).
  { unfold st.
    apply (fold_invariant raw (lines_of raw)
             (fun st => l_summary st = [] \/ l_summary st = raw \/
                exists bl,
                  bl <> [] /\ l_summary st = join newline bl /\
                  forall b, In b bl ->
                            is_bullet b = true /\
                            exists l, In l (lines_of raw) /\ b = strip l));
      [|left; reflexivity].
    intros s i l H. destruct (summary_line l) eqn:E.
    - rewrite body_summary by exact E. rewrite summary_loop_filter. cbn [app].
      destruct (filter is_bullet (map strip (window (lines_of raw) i)))
        as [|b bl] eqn:F; [right; left; reflexivity|].
      right. right. exists (b :: bl). split; [discriminate|].
      split; [reflexivity|]. intros x Hx. rewrite <- F in Hx.
      apply filter_In in Hx. destruct Hx as [Hx Hb]. split; [exact Hb|].
      apply in_map_iff in Hx. destruct Hx as (y & <- & Hy).
      exists y. split; [apply window_In with (i := i); exact Hy | reflexivity].
    - rewrite body_summary_other by exact E. exact H. }
  destruct I as [I|[I|(bl & NE & J & B)]].
  - rewrite I. split; [left; reflexivity | auto].
  - rewrite I. split; [left; destruct raw; reflexivity|].
    destruct raw; [congruence | intros _; discriminate].
  - assert (N : l_summary st <> []).
    { rewrite J. destruct bl as [|b bl]; [congruence|].
      apply join_nonempty. destruct (B b (or_introl eq_refl)) as [Hb _].
      destruct b; [discriminate Hb | discriminate]. }
    destruct (l_summary st) as [|c s] eqn:S; [congruence|].
    split; [|intros _; discriminate].
    right. exists bl. split; [exact NE|]. split; [exact J | exact B].
Qed.

(** X25. The key quotations are present in the returned record and are
    the newline-join of stripped lines of the response that begin with
    [>] or a double quote (of none of them, when there is no such line). *)
Theorem key_quotes_provenance (raw fallback : str) :
  exists r ql,
    summarize_with_gemini lower (inr raw) fallback = inr r /\
    key_quotes r = Some (join newline ql) /\
    forall q, In q ql ->
              is_quote q = true /\
              exists l, In l (lines_of raw) /\ q = strip l.
Proof.
  assert (I : exists ql,
             l_key_quotes (scan raw fallback (lines_of raw)) = join newline ql /\
             forall q, In q ql ->
                       is_quote q = true /\
                       exists l, In l (lines_of raw) /\ q = strip l).
  { unfold scan.
    apply (fold_invariant raw (lines_of raw)
             (fun st => exists ql,
                l_key_quotes st = join newline ql /\
                forall q, In q ql ->
                          is_quote q = true /\
                          exists l, In l (lines_of raw) /\ q = strip l));
      [|exists []; split; [reflexivity | intros q []]].
    intros s i l H. destruct (quotes_line l) eqn:E.
    - rewrite body_quotes by exact E. rewrite quote_loop_filter. cbn [app].
      exists (filter is_quote
                (before_break (map strip (window (lines_of raw) i)))).
      split; [destruct (filter _ _); reflexivity|].
      intros x Hx. apply filter_In in Hx. destruct Hx as [Hx Hq].
      split; [exact Hq|]. apply before_break_In, in_map_iff in Hx.
      destruct Hx as (y & <- & Hy).
      exists y. split; [apply window_In with (i := i); exact Hy | reflexivity].
    - rewrite body_quotes_other by exact E. exact H. }
  destruct I as (ql & J & Q).
  eexists. exists ql. split; [apply summarize_returned|].
  unfold interpret. cbn [key_quotes]. rewrite J. split; [reflexivity | exact Q].
Qed.

End FieldProvenance.
